(** * Camply: session lifecycle, attempt throttle, onboarding gate, listings

    A shallow embedding of the client-side authentication code
    (lib/rateLimiter.ts, lib/authService.ts, context/AuthContext.tsx), of
    the onboarding service (lib/onboardingService.ts) and of the listing
    creation route (app/api/listings/route.ts), with the properties the
    specification states about them.

    Conventions of the embedding.
    - A JavaScript string that comes from the user (email, password, full
      name) is the list of its UTF-16 code units, [list N]; [s.length] is
      the length of that list.  Fixed texts of the program (messages, table
      keys, URLs) are [string]s.
    - JavaScript numbers that hold milliseconds or counters are integers
      far below 2^53; they are [Z].
    - An object used as a dictionary is a [gmap].  Keys that a JavaScript
      object inherits from [Object.prototype] are outside the model; the only
      caller of the limiter passes strings that matched the email pattern.
    - [Date.now()] reads a clock that the program does not control: the
      state counts the reads, and a function from the number of the read to
      the time gives the value, so two reads in one method may differ.
    - The identity provider, the database and the object storage are
      outside the repository.  Their answers are not up to the program: the
      provider is a function from the requests made so far to its answer,
      and the database state carries the outcomes of the coming requests
      (carried out, refused with an error, or throwing).
    - An [async] function is one atomic state transformer: the interleaving
      of two operations at an [await] is not modelled. *)

From Stdlib Require Import ZArith NArith Lia List Bool Ascii String.
From stdpp Require Import gmap strings list fin_maps pretty.

Local Open Scope Z_scope.

(* ===================================================================== *)
(** ** JavaScript values *)
(* ===================================================================== *)

Module Js.

(** Code units of a literal. *)
Fixpoint units (s : string) : list N :=
  match s with
  | EmptyString => []
  | String a rest => N_of_ascii a :: units rest
  end.

(** [!s] is false exactly for the non-empty string. *)
Definition truthy_units (s : list N) : bool :=
  match s with [] => false | _ :: _ => true end.

Definition truthy_string (s : string) : bool :=
  match s with EmptyString => false | String _ _ => true end.

(** A number is falsy when it is 0 (NaN does not occur on integers). *)
Definition truthy_num (z : Z) : bool := negb (z =? 0).

(** [a || b] on strings. *)
Definition or_string (a b : string) : string :=
  if truthy_string a then a else b.

(** [needle] is a prefix of [hay]. *)
Fixpoint starts_with (needle hay : string) : bool :=
  match needle, hay with
  | EmptyString, _ => true
  | String _ _, EmptyString => false
  | String a n', String b h' => Ascii.eqb a b && starts_with n' h'
  end.

(** [hay.includes(needle)]. *)
Fixpoint includes (hay needle : string) : bool :=
  starts_with needle hay ||
  match hay with
  | EmptyString => false
  | String _ h' => includes h' needle
  end.

(** [Math.ceil(n / d)] for an integer [n] and a positive integer [d]. *)
Definition ceil_div (n d : Z) : Z := - ((- n) / d).

(** ECMAScript white space and line terminators: the class [\s] of a
    regular expression, and what [String.prototype.trim] strips. *)
Definition is_space (c : N) : bool :=
  ((9 <=? c) && (c <=? 13) || (c =? 32) || (c =? 160) || (c =? 5760)
   || (8192 <=? c) && (c <=? 8202) || (c =? 8232) || (c =? 8233)
   || (c =? 8239) || (c =? 8287) || (c =? 12288) || (c =? 65279))%N.

Fixpoint trim_start (s : list N) : list N :=
  match s with
  | [] => []
  | c :: rest => if is_space c then trim_start rest else s
  end.

Definition trim (s : list N) : list N :=
  rev (trim_start (rev (trim_start s))).

End Js.

(* ===================================================================== *)
(** ** Regular expressions *)
(* ===================================================================== *)

(** The three password patterns and the email pattern use character
    classes, concatenation and [+] only.  [RegExp.prototype.test] asks
    whether some match exists, so the backtracking order of the engine does
    not matter and a pattern denotes a language. *)

Module Regex.

Inductive regex : Type :=
| Void : regex
| Eps : regex
| Class : (N -> bool) -> regex
| Cat : regex -> regex -> regex
| Alt : regex -> regex -> regex
| Star : regex -> regex.

(** [r+] *)
Definition Plus (r : regex) : regex := Cat r (Star r).

Definition any : regex := Class (fun _ => true).

(** The words of a pattern. *)
Inductive lang : regex -> list N -> Prop :=
| lang_eps : lang Eps []
| lang_class p c : p c = true -> lang (Class p) [c]
| lang_cat r s u v : lang r u -> lang s v -> lang (Cat r s) (u ++ v)
| lang_alt_l r s u : lang r u -> lang (Alt r s) u
| lang_alt_r r s u : lang s u -> lang (Alt r s) u
| lang_star_nil r : lang (Star r) []
| lang_star_cons r u v : lang r u -> lang (Star r) v -> lang (Star r) (u ++ v).

Fixpoint nullable (r : regex) : bool :=
  match r with
  | Void => false
  | Eps => true
  | Class _ => false
  | Cat r s => nullable r && nullable s
  | Alt r s => nullable r || nullable s
  | Star _ => true
  end.

(** Words of [r] that start with [c], with that [c] removed. *)
Fixpoint deriv (c : N) (r : regex) : regex :=
  match r with
  | Void => Void
  | Eps => Void
  | Class p => if p c then Eps else Void
  | Cat r s =>
      if nullable r then Alt (Cat (deriv c r) s) (deriv c s)
      else Cat (deriv c r) s
  | Alt r s => Alt (deriv c r) (deriv c s)
  | Star r => Cat (deriv c r) (Star r)
  end.

Fixpoint accepts (r : regex) (w : list N) : bool :=
  match w with
  | [] => nullable r
  | c :: w' => accepts (deriv c r) w'
  end.

(** [/^r$/.test(w)]: the whole input is a word of [r]. *)
Definition test_anchored (r : regex) (w : list N) : bool := accepts r w.

(** [/r/.test(w)]: some substring of the input is a word of [r]. *)
Definition test (r : regex) (w : list N) : bool :=
  accepts (Cat (Star any) (Cat r (Star any))) w.

End Regex.

(* ===================================================================== *)
(** ** Credential validator (lib/authService.ts) *)
(* ===================================================================== *)

Module Validator.
Import Regex.

Definition not_space_at (c : N) : bool := negb (Js.is_space c || (c =? 64)%N).
Definition is_dot (c : N) : bool := (c =? 46)%N.
Definition is_upper (c : N) : bool := ((65 <=? c) && (c <=? 90))%N.
Definition is_lower (c : N) : bool := ((97 <=? c) && (c <=? 122))%N.
Definition is_digit (c : N) : bool := ((48 <=? c) && (c <=? 57))%N.

(** [/^[^\s@]+@[^\s@]+\.[^\s@]+$/] *)
Definition emailRegex : regex :=
  Cat (Plus (Class not_space_at))
    (Cat (Class (fun c => (c =? 64)%N))
       (Cat (Plus (Class not_space_at))
          (Cat (Class is_dot) (Plus (Class not_space_at))))).

Definition validateEmail (email : list N) : bool :=
  test_anchored emailRegex email.

Record PasswordCheck := { valid : bool; message : option string }.

Definition msg_length : string := "Password must be at least 8 characters".
Definition msg_upper : string :=
  "Password must contain at least one uppercase letter".
Definition msg_lower : string :=
  "Password must contain at least one lowercase letter".
Definition msg_digit : string := "Password must contain at least one number".

Definition validatePassword (password : list N) : PasswordCheck :=
  if Z.of_nat (length password) <? 8 then
    {| valid := false; message := Some msg_length |}
  else if negb (test (Class is_upper) password) then
    {| valid := false; message := Some msg_upper |}
  else if negb (test (Class is_lower) password) then
    {| valid := false; message := Some msg_lower |}
  else if negb (test (Class is_digit) password) then
    {| valid := false; message := Some msg_digit |}
  else {| valid := true; message := None |}.

End Validator.

(* ===================================================================== *)
(** ** Computations over a state *)
(* ===================================================================== *)

(** A computation reads and writes a state.  One that can throw returns
    [inl] of the thrown value; what it wrote before throwing stays written,
    as in JavaScript. *)

Module State.

Definition St (S A : Type) : Type := S -> A * S.
Definition StX (S E A : Type) : Type := St S (E + A).

Definition ret {S A} (a : A) : St S A := fun w => (a, w).

Definition bind {S A B} (m : St S A) (k : A -> St S B) : St S B :=
  fun w => let (a, w1) := m w in k a w1.

Definition get {S} : St S S := fun w => (w, w).
Definition modify {S} (f : S -> S) : St S unit := fun w => (tt, f w).

Definition throw {S E A} (e : E) : StX S E A := ret (inl e).
Definition ok {S E A} (a : A) : StX S E A := ret (inr a).

Definition bindX {S E A B} (m : StX S E A) (k : A -> StX S E B) : StX S E B :=
  bind m (fun r => match r with inl e => ret (inl e) | inr a => k a end).

(** [try { m } catch (e) { h e }] *)
Definition try_catch {S E F A} (m : StX S E A) (h : E -> StX S F A) : StX S F A :=
  bind m (fun r => match r with inl e => h e | inr a => ret (inr a) end).

(** [try { m } finally { f }] *)
Definition finally {S E A} (m : StX S E A) (f : St S unit) : StX S E A :=
  bind m (fun r => bind f (fun _ => ret r)).

Declare Scope js_scope.
Delimit Scope js_scope with js.
Notation "'let*' x ':=' m 'in' k" := (bind m (fun x => k))
  (at level 10, x name, m at level 100, k at level 200) : js_scope.
Notation "m ';;' k" := (bind m (fun _ => k))
  (at level 100, k at level 200, right associativity) : js_scope.
Notation "'let?' x ':=' m 'in' k" := (bindX m (fun x => k))
  (at level 10, x name, m at level 100, k at level 200) : js_scope.

End State.

(* ===================================================================== *)
(** ** The state of the page and its effects *)
(* ===================================================================== *)

Module Runtime.
Export State.

(** *** Types of @/types/auth *)

Inductive AuthErrorCode : Type :=
| INVALID_CREDENTIALS | USER_NOT_FOUND | USER_ALREADY_EXISTS | WEAK_PASSWORD
| INVALID_EMAIL | RATE_LIMIT_EXCEEDED | SESSION_EXPIRED | NETWORK_ERROR
| UNKNOWN_ERROR.

Record AuthError := {
  code : AuthErrorCode;
  message : string;
  details : option string
}.

(** The object [mapSupabaseUserToUser] builds. *)
Record User := {
  id : string;
  email : string;
  fullName : option string;
  avatar : option string;
  provider : string;
  createdAt : string;
  updatedAt : string
}.

Record Session := {
  s_user : option User;
  accessToken : option string;
  refreshToken : option string;
  expiresAt : option Z
}.

Record RateLimitConfig := {
  maxAttempts : Z;
  windowMs : Z;
  lockoutMs : Z
}.

(** One value of the limiter's store. *)
Record Entry := {
  attempts : Z;
  firstAttemptTime : Z;
  lockedUntil : option Z
}.

(** *** The identity provider, as the client sees it *)

(** Whatever a provider call hands back as [error], or throws:
    [err_message] is its [message] (empty when it has none) and
    [err_text] what [toString()] gives. *)
Record RawError := { err_message : string; err_text : string }.

Record SupabaseUser := {
  su_id : string;
  su_email : string;
  su_full_name : string;
  su_avatar_url : string;
  su_provider : string;
  su_created_at : string;
  su_updated_at : string
}.

Record SupabaseSession := {
  access_token : string;
  refresh_token : string
}.

(** [{ data: { user, session }, error }] *)
Record AuthResponse := {
  r_error : option RawError;
  r_user : option SupabaseUser;
  r_session : option SupabaseSession
}.

(** An awaited promise resolves to a value or rejects. *)
Inductive Awaited (A : Type) : Type :=
| Resolved : A -> Awaited A
| Rejected : RawError -> Awaited A.
Arguments Resolved {A} _.
Arguments Rejected {A} _.

Inductive ProviderCall : Type :=
| SignInWithPassword (email password : list N)
| SignUp (email password fullName : list N) (emailRedirectTo : string)
| SignInWithOAuth (redirectTo : string)
| SignOut
| ResetPasswordForEmail (email : list N) (redirectTo : string).

(** *** The state *)

Record World := {
  store : gmap (list N) Entry;      (* rateLimiter.store *)
  reads : nat;                      (* calls of Date.now() so far *)
  calls : list ProviderCall;        (* requests sent to the provider, latest first *)
  sessionKeys : gset string;        (* keys of window.sessionStorage *)
  localKeys : gset string;          (* keys of window.localStorage *)
  user : option User;               (* useState of AuthProvider *)
  session : option Session;
  loading : bool;
  error : option AuthError
}.

Definition with_store (f : gmap (list N) Entry -> gmap (list N) Entry) (w : World) : World :=
  {| store := f (store w); reads := reads w; calls := calls w;
     sessionKeys := sessionKeys w; localKeys := localKeys w;
     user := user w; session := session w; loading := loading w;
     error := error w |}.

Definition with_reads (n : nat) (w : World) : World :=
  {| store := store w; reads := n; calls := calls w;
     sessionKeys := sessionKeys w; localKeys := localKeys w;
     user := user w; session := session w; loading := loading w;
     error := error w |}.

Definition with_calls (l : list ProviderCall) (w : World) : World :=
  {| store := store w; reads := reads w; calls := l;
     sessionKeys := sessionKeys w; localKeys := localKeys w;
     user := user w; session := session w; loading := loading w;
     error := error w |}.

Definition with_web_storage (s l : gset string) (w : World) : World :=
  {| store := store w; reads := reads w; calls := calls w;
     sessionKeys := s; localKeys := l;
     user := user w; session := session w; loading := loading w;
     error := error w |}.

Definition with_user (u : option User) (w : World) : World :=
  {| store := store w; reads := reads w; calls := calls w;
     sessionKeys := sessionKeys w; localKeys := localKeys w;
     user := u; session := session w; loading := loading w;
     error := error w |}.

Definition with_session (s : option Session) (w : World) : World :=
  {| store := store w; reads := reads w; calls := calls w;
     sessionKeys := sessionKeys w; localKeys := localKeys w;
     user := user w; session := s; loading := loading w;
     error := error w |}.

Definition with_loading (b : bool) (w : World) : World :=
  {| store := store w; reads := reads w; calls := calls w;
     sessionKeys := sessionKeys w; localKeys := localKeys w;
     user := user w; session := session w; loading := b;
     error := error w |}.

Definition with_error (e : option AuthError) (w : World) : World :=
  {| store := store w; reads := reads w; calls := calls w;
     sessionKeys := sessionKeys w; localKeys := localKeys w;
     user := user w; session := session w; loading := loading w;
     error := e |}.

(** Computations of the page. *)
Definition M (A : Type) : Type := St World A.
Definition MX (E A : Type) : Type := StX World E A.

End Runtime.

(* ===================================================================== *)
(** ** Attempt throttle (lib/rateLimiter.ts) *)
(* ===================================================================== *)

Module RateLimiter.
Import Runtime.
Local Open Scope js_scope.

Definition DEFAULT_CONFIG : RateLimitConfig :=
  {| maxAttempts := 5;
     windowMs := 15 * 60 * 1000;
     lockoutMs := 30 * 60 * 1000 |}.

Record AttemptResult := { allowed : bool; remaining : Z }.

Section Limiter.
(** [clock k] is what the call number [k] of [Date.now()] returns:
    milliseconds since the epoch.  Two reads inside one method may
    differ. *)
Variable clock : nat -> N.
(** [this.config] *)
Variable config : RateLimitConfig.

Definition date_now : M Z :=
  fun w => (Z.of_N (clock (reads w)), with_reads (S (reads w)) w).

(** [entry.lockedUntil && cmp(Date.now(), entry.lockedUntil)]: the
    clock is read only when [lockedUntil] is a non-zero number. *)
Definition lockedUntil_and (cmp : Z -> Z -> bool) (entry : Entry) : M bool :=
  match lockedUntil entry with
  | None => ret false
  | Some l =>
      if Js.truthy_num l then let* t := date_now in ret (cmp t l)
      else ret false
  end.

Definition isLocked (identifier : list N) : M bool :=
  let* w := get in
  match store w !! identifier with
  | None => ret false
  | Some entry =>
      let* before := lockedUntil_and Z.ltb entry in
      if before then ret true
      else
        let* passed := lockedUntil_and Z.geb entry in
        if passed then
          modify (with_store (delete identifier)) ;; ret false
        else ret false
  end.

Definition getLockoutTimeRemaining (identifier : list N) : M Z :=
  let* w := get in
  match store w !! identifier with
  | None => ret 0
  | Some entry =>
      match lockedUntil entry with
      | None => ret 0
      | Some l =>
          if Js.truthy_num l then
            let* t := date_now in
            let remaining := l - t in
            ret (if remaining >? 0 then remaining else 0)
          else ret 0
      end
  end.

(** A write through the reference [entry] that [recordAttempt] took
    before calling [isLocked]: the store shows it as long as it still
    holds that object; after [isLocked] deleted the key, the write
    lands on an object nothing refers to. *)
Definition write_through (identifier : list N) (e : Entry) : M unit :=
  modify (with_store (fun s =>
    match s !! identifier with
    | Some _ => <[identifier := e]> s
    | None => s
    end)).

Definition fresh_entry (now : Z) : Entry :=
  {| attempts := 1; firstAttemptTime := now; lockedUntil := None |}.

Definition recordAttempt (identifier : list N) : M AttemptResult :=
  let* now := date_now in
  let* w := get in
  let entry := store w !! identifier in
  let* locked := isLocked identifier in
  if locked then
    let* r := getLockoutTimeRemaining identifier in
    ret {| allowed := false; remaining := r |}
  else
    match entry with
    | None =>
        modify (with_store <[identifier := fresh_entry now]>) ;;
        ret {| allowed := true; remaining := 0 |}
    | Some e =>
        if now - firstAttemptTime e >? windowMs config then
          modify (with_store <[identifier := fresh_entry now]>) ;;
          ret {| allowed := true; remaining := 0 |}
        else
          let e1 := {| attempts := attempts e + 1;
                       firstAttemptTime := firstAttemptTime e;
                       lockedUntil := lockedUntil e |} in
          if attempts e1 >? maxAttempts config then
            write_through identifier
              {| attempts := attempts e1;
                 firstAttemptTime := firstAttemptTime e1;
                 lockedUntil := Some (now + lockoutMs config) |} ;;
            ret {| allowed := false; remaining := lockoutMs config |}
          else
            write_through identifier e1 ;;
            ret {| allowed := true; remaining := 0 |}
    end.

Definition reset (identifier : list N) : M unit :=
  modify (with_store (delete identifier)).

Definition resetAll : M unit :=
  modify (with_store (fun _ => ∅)).

(** The body of the hourly [setInterval] callback of [startCleanup]. *)
Definition cleanup : M unit :=
  let* now := date_now in
  modify (with_store
    (filter (fun kv => ¬ (now - firstAttemptTime kv.2 > windowMs config * 2)))).

(** [n] calls of [recordAttempt] in a row, results in call order. *)
Fixpoint recordAttempts (n : nat) (identifier : list N) : M (list AttemptResult) :=
  match n with
  | O => ret []
  | S n' =>
      let* r := recordAttempt identifier in
      let* rs := recordAttempts n' identifier in
      ret (r :: rs)
  end.

End Limiter.

End RateLimiter.

(* ===================================================================== *)
(** ** Authentication service (lib/authService.ts) *)
(* ===================================================================== *)

Module AuthService.
Import Validator Runtime RateLimiter.
Local Open Scope js_scope.
Local Open Scope string_scope.

(** What [loginWithEmail] and [signUpWithEmail] resolve to. *)
Record Credentials := {
  c_user : User;
  c_accessToken : string;
  c_refreshToken : string
}.

(** [new Error(msg)] *)
Definition new_Error (msg : string) : RawError :=
  {| err_message := msg;
     err_text := if Js.truthy_string msg then "Error: " ++ msg else "Error" |}.

Definition mapSupabaseError (error : RawError) : AuthError :=
  let message :=
    Js.or_string (err_message error)
      (Js.or_string (err_text error) "An unknown error occurred") in
  if Js.includes message "Invalid login credentials" then
    {| code := INVALID_CREDENTIALS;
       message := "Invalid email or password"; details := None |}
  else if Js.includes message "Email not confirmed" then
    {| code := INVALID_CREDENTIALS;
       message := "Please verify your email address before logging in";
       details := None |}
  else if Js.includes message "User already registered" then
    {| code := USER_ALREADY_EXISTS;
       message := "This email is already registered"; details := None |}
  else if Js.includes message "Password" then
    {| code := WEAK_PASSWORD;
       message := "Password does not meet security requirements";
       details := None |}
  else if Js.includes message "Network" then
    {| code := NETWORK_ERROR;
       message := "Network error. Please check your connection.";
       details := None |}
  else {| code := UNKNOWN_ERROR; message := message; details := None |}.

(** [s || null] *)
Definition or_null (s : string) : option string :=
  if Js.truthy_string s then Some s else None.

Definition mapSupabaseUserToUser (supabaseUser : SupabaseUser) : User :=
  {| id := su_id supabaseUser;
     email := Js.or_string (su_email supabaseUser) "";
     fullName := or_null (su_full_name supabaseUser);
     avatar := or_null (su_avatar_url supabaseUser);
     provider := Js.or_string (su_provider supabaseUser) "email";
     createdAt := su_created_at supabaseUser;
     updatedAt := su_updated_at supabaseUser |}.

Definition rate_limit_error (remainingMs : Z) : AuthError :=
  let remainingSeconds := Js.ceil_div remainingMs 1000 in
  {| code := RATE_LIMIT_EXCEEDED;
     message := "Too many login attempts. Try again in "
                ++ pretty remainingSeconds ++ " seconds.";
     details := Some ("Locked for " ++ pretty remainingSeconds ++ " seconds") |}.

Definition required_error : AuthError :=
  {| code := INVALID_CREDENTIALS;
     message := "Email and password are required"; details := None |}.

Definition invalid_email_error : AuthError :=
  {| code := INVALID_EMAIL;
     message := "Please enter a valid email address"; details := None |}.

Section Service.
Variable clock : nat -> N.
(** [window.location.origin], or [None] where [window] is undefined. *)
Variable window_origin : option string.
(** The provider's answer to the latest request of the log; it may
    depend on all requests made so far. *)
Variable provider : list ProviderCall -> Awaited AuthResponse.

(** [await supabase.auth.<request>]: the request joins the log and the
    provider's answer comes back.  What the client does by itself around an
    answer is not part of this definition: it keeps a session it is given
    in [window.localStorage] under a key of its own, drops that key on a
    sign-out, and calls the listener that [AuthProvider] registers with
    [onAuthStateChange]. *)
Definition request (c : ProviderCall) : MX RawError AuthResponse :=
  fun w =>
    let log := c :: calls w in
    (match provider log with
     | Resolved r => inr r
     | Rejected e => inl e
     end, with_calls log w).

(** [const { data, error } = await ...; if (error) throw error] *)
Definition request_checked (c : ProviderCall) : MX RawError AuthResponse :=
  let? r := request c in
  match r_error r with
  | Some e => throw e
  | None => ok r
  end.

Definition loginWithEmail (email password : list N) : MX AuthError Credentials :=
  if negb (Js.truthy_units email) || negb (Js.truthy_units password) then
    throw required_error
  else if negb (validateEmail email) then throw invalid_email_error
  else
    let* rateLimitResult := recordAttempt clock DEFAULT_CONFIG email in
    if negb (allowed rateLimitResult) then
      throw (rate_limit_error (remaining rateLimitResult))
    else
      try_catch
        (let? r := request_checked (SignInWithPassword email password) in
         match r_user r, r_session r with
         | Some u, Some s =>
             reset email ;;
             ok {| c_user := mapSupabaseUserToUser u;
                   c_accessToken := access_token s;
                   c_refreshToken := Js.or_string (refresh_token s) "" |}
         | _, _ => throw (new_Error "No user or session returned from auth")
         end)
        (fun error => throw (mapSupabaseError error)).

Definition signUpWithEmail (email password fullName : list N)
  : MX AuthError Credentials :=
  if negb (Js.truthy_units email) || negb (Js.truthy_units password)
     || negb (Js.truthy_units fullName) then
    throw {| code := INVALID_CREDENTIALS;
             message := "All fields are required"; details := None |}
  else if negb (validateEmail email) then throw invalid_email_error
  else
    let passwordValidation := validatePassword password in
    if negb (valid passwordValidation) then
      throw {| code := WEAK_PASSWORD;
               message :=
                 Js.or_string
                   (default "" (Validator.message passwordValidation))
                   "Password is too weak";
               details := None |}
    else if (Z.of_nat (length (Js.trim fullName)) <? 2)%Z then
      throw {| code := INVALID_CREDENTIALS;
               message := "Full name must be at least 2 characters";
               details := None |}
    else
      try_catch
        (let appUrl := default "http://localhost:3000" window_origin in
         let? r := request_checked
                     (SignUp email password fullName
                        (appUrl ++ "/auth/confirm-email")) in
         match r_user r with
         | Some u =>
             ok {| c_user := mapSupabaseUserToUser u;
                   c_accessToken :=
                     Js.or_string
                       (default "" (access_token <$> r_session r)) "";
                   c_refreshToken :=
                     Js.or_string
                       (default "" (refresh_token <$> r_session r)) "" |}
         | None => throw (new_Error "No user returned from signup")
         end)
        (fun error => throw (mapSupabaseError error)).

Definition signInWithGoogle : MX AuthError unit :=
  try_catch
    (let? _ := request_checked
                 (SignInWithOAuth
                    (default "" window_origin ++ "/auth/callback")) in
     ok tt)
    (fun error => throw (mapSupabaseError error)).

Definition logout : MX AuthError unit :=
  try_catch
    (let? _ := request_checked SignOut in
     match window_origin with
     | Some _ =>
         let* w := get in
         modify (with_web_storage
                   (sessionKeys w ∖ {["sb-auth-session"]})
                   (localKeys w ∖ {["sb-auth-token"]})) ;;
         ok tt
     | None => ok tt
     end)
    (fun error => throw (mapSupabaseError error)).

Definition requestPasswordReset (email : list N) : MX AuthError unit :=
  if negb (Js.truthy_units email) then
    throw {| code := INVALID_EMAIL;
             message := "Email is required"; details := None |}
  else if negb (validateEmail email) then throw invalid_email_error
  else
    try_catch
      (let? _ := request_checked
                   (ResetPasswordForEmail email
                      (default "" window_origin ++ "/auth/reset-password")) in
       ok tt)
      (fun error => throw (mapSupabaseError error)).

End Service.

End AuthService.

(* ===================================================================== *)
(** ** Auth orchestrator (context/AuthContext.tsx, [AuthProvider]) *)
(* ===================================================================== *)

Module AuthProvider.
Import Runtime RateLimiter AuthService.
Local Open Scope js_scope.

Section Provider.
Variable clock : nat -> N.
Variable window_origin : option string.
Variable provider : list ProviderCall -> Awaited AuthResponse.

Definition setUser (u : option User) : M unit := modify (with_user u).
Definition setSession (s : option Session) : M unit := modify (with_session s).
Definition setLoading (b : bool) : M unit := modify (with_loading b).
Definition setError (e : option AuthError) : M unit := modify (with_error e).

(** [catch (err) { setError(err); throw err }] *)
Definition report (err : AuthError) : MX AuthError unit :=
  setError (Some err) ;; throw err.

Definition login (email password : list N) : MX AuthError unit :=
  setLoading true ;;
  setError None ;;
  finally
    (try_catch
       (let? result := loginWithEmail clock provider email password in
        setUser (Some (c_user result)) ;;
        let* now := date_now clock in
        setSession
          (Some {| s_user := Some (c_user result);
                   accessToken := Some (c_accessToken result);
                   refreshToken := Some (c_refreshToken result);
                   expiresAt := Some (now + 60 * 60 * 1000) |}) ;;
        ok tt)
       report)
    (setLoading false).

Definition signUp (email password fullName : list N) : MX AuthError unit :=
  setLoading true ;;
  setError None ;;
  finally
    (try_catch
       (let? _ := signUpWithEmail window_origin provider
                    email password fullName in
        ok tt)
       report)
    (setLoading false).

Definition signInWithGoogleHandler : MX AuthError unit :=
  setError None ;;
  try_catch (signInWithGoogle window_origin provider) report.

Definition logoutHandler : MX AuthError unit :=
  setLoading true ;;
  setError None ;;
  finally
    (try_catch
       (let? _ := logout window_origin provider in
        setUser None ;;
        setSession None ;;
        ok tt)
       report)
    (setLoading false).

Definition resetPassword (email : list N) : MX AuthError unit :=
  setLoading true ;;
  setError None ;;
  finally
    (try_catch
       (let? _ := requestPasswordReset window_origin provider email in
        ok tt)
       report)
    (setLoading false).

Definition clearError : M unit := setError None.

End Provider.

End AuthProvider.

(* ===================================================================== *)
(** ** The persisted profile store, as the client sees it *)
(* ===================================================================== *)

(** The hosted database is outside the repository.  Its [users] table is
    taken to have [id] as primary key, and a request to it to be atomic: it
    either is carried out and answers with data, or answers with an error
    (or makes the client throw) and leaves the table as it was.  Which
    requests fail is not up to the program: the state carries the outcomes
    of the coming requests.  In the repository only [completeOnboarding]
    writes to the table. *)

Module Store.
Export State.
Local Open Scope js_scope.
Local Open Scope string_scope.

(** [{ code, message }] of an error answer. *)
Record PgError := { pg_code : string; pg_message : string }.

(** What happens to one request. *)
Inductive Outcome : Type :=
| Proceed : Outcome                     (* carried out *)
| Refuse : PgError -> Outcome           (* answered with [error] *)
| Throw : string -> Outcome.            (* the await throws an Error with this message *)

(** [{ data, error }] *)
Inductive Reply (A : Type) : Type :=
| Data : A -> Reply A
| Failed : PgError -> Reply A.
Arguments Data {A} _.
Arguments Failed {A} _.

(** A row of [users]; every column but the key may be null. *)
Record Row := {
  r_id : string;
  display_name : option string;
  bio : option string;
  school : option string;
  program : option string;
  avatar_url : option string;
  onboarding_completed : option bool;
  created_at : option string;
  updated_at : option string;
  is_admin : option bool
}.

Record Db := {
  users : gmap string Row;
  schedule : list Outcome;     (* outcomes of the coming requests; all proceed when empty *)
  stamps : nat                 (* uses of [new Date()] so far *)
}.

Definition with_users (f : gmap string Row -> gmap string Row) (db : Db) : Db :=
  {| users := f (users db); schedule := schedule db; stamps := stamps db |}.

Definition next_outcome : St Db Outcome :=
  fun db =>
    match schedule db with
    | [] => (Proceed, db)
    | o :: rest =>
        (o, {| users := users db; schedule := rest; stamps := stamps db |})
    end.

Definition no_rows : PgError :=
  {| pg_code := "PGRST116";
     pg_message := "JSON object requested, multiple (or no) rows returned" |}.

Definition duplicate_key : PgError :=
  {| pg_code := "23505";
     pg_message := "duplicate key value violates unique constraint" |}.

(** One request: the outcome decides whether [action] is carried out. *)
Definition request {A} (action : St Db (Reply A)) : StX Db string (Reply A) :=
  let* o := next_outcome in
  match o with
  | Proceed => let* r := action in ok r
  | Refuse e => ok (Failed e)
  | Throw msg => throw msg
  end.

(** [.from("users").select(...).eq("id", userId).single()] *)
Definition select_single (userId : string) : StX Db string (Reply Row) :=
  request
    (let* db := get in
     match users db !! userId with
     | Some row => ret (Data row)
     | None => ret (Failed no_rows)
     end).

(** [.from("users").update(patch).eq("id", userId)] *)
Definition update_eq (userId : string) (patch : Row -> Row)
  : StX Db string (Reply unit) :=
  request (modify (with_users (alter patch userId)) ;; ret (Data tt)).

(** [.from("users").insert([row])] *)
Definition insert (row : Row) : StX Db string (Reply unit) :=
  request
    (let* db := get in
     match users db !! r_id row with
     | Some _ => ret (Failed duplicate_key)
     | None => modify (with_users <[r_id row := row]>) ;; ret (Data tt)
     end).

End Store.

(* ===================================================================== *)
(** ** Onboarding gate (lib/onboardingService.ts) *)
(* ===================================================================== *)

Module Onboarding.
Import Store.
Local Open Scope js_scope.
Local Open Scope string_scope.

Inductive AvatarType : Type := custom | male_avatar | female_avatar.
Inductive Gender : Type := male | female.

(** The texts of the form are stored and compared, never inspected. *)
Record OnboardingData := {
  displayName : string;
  data_bio : string;
  data_school : string;
  data_program : string;
  profilePicture : string;
  avatarType : AvatarType;
  gender : option Gender
}.

Record OnboardingResult := { success : bool; error : option string }.

Section Service.
(** [toISOString k] is the text of use number [k] of [new Date()]. *)
Variable toISOString : nat -> string.

Definition new_Date : St Db string :=
  fun db =>
    (toISOString (stamps db),
     {| users := users db; schedule := schedule db; stamps := S (stamps db) |}).

Definition hasCompletedOnboarding (userId : string) : St Db bool :=
  let* r := select_single userId in
  match r with
  | inl _ => ret false
  | inr (Failed _) => ret false
  | inr (Data row) => ret (default false (onboarding_completed row))
  end.

Definition getUserProfile (userId : string) : St Db (option Row) :=
  let* r := select_single userId in
  match r with
  | inl _ => ret None
  | inr (Failed e) =>
      if String.eqb (pg_code e) "PGRST116" then ret None else ret None
  | inr (Data row) => ret (Some row)
  end.

(** [update(profileData)]: the columns of [profileData] are overwritten,
    the others stay. *)
Definition set_profile (userId : string) (data : OnboardingData)
    (updated : string) (row : Row) : Row :=
  {| r_id := userId;
     display_name := Some (displayName data);
     bio := Some (data_bio data);
     school := Some (data_school data);
     program := Some (data_program data);
     avatar_url := Some (profilePicture data);
     onboarding_completed := Some true;
     created_at := created_at row;
     updated_at := Some updated;
     is_admin := is_admin row |}.

(** [{ ...profileData, created_at }]: a new row; columns the object does
    not name are null. *)
Definition new_profile (userId : string) (data : OnboardingData)
    (updated created : string) : Row :=
  {| r_id := userId;
     display_name := Some (displayName data);
     bio := Some (data_bio data);
     school := Some (data_school data);
     program := Some (data_program data);
     avatar_url := Some (profilePicture data);
     onboarding_completed := Some true;
     created_at := Some created;
     updated_at := Some updated;
     is_admin := None |}.

Definition succeeded : OnboardingResult := {| success := true; error := None |}.

Definition failed (message : string) : OnboardingResult :=
  {| success := false; error := Some message |}.

Definition completeOnboarding (userId : string) (data : OnboardingData)
  : St Db OnboardingResult :=
  let* existingProfile := getUserProfile userId in
  let* updated := new_Date in
  match existingProfile with
  | Some _ =>
      let* r := update_eq userId (set_profile userId data updated) in
      match r with
      | inl message => ret (failed message)
      | inr (Failed e) =>
          ret (failed (Js.or_string (pg_message e) "Failed to update profile"))
      | inr (Data _) => ret succeeded
      end
  | None =>
      let* created := new_Date in
      let* r := insert (new_profile userId data updated created) in
      match r with
      | inl message => ret (failed message)
      | inr (Failed e) =>
          ret (failed (Js.or_string (pg_message e) "Failed to create profile"))
      | inr (Data _) => ret succeeded
      end
  end.

(** *** Histories of calls *)

Inductive Call : Type :=
| CompleteOnboarding (userId : string) (data : OnboardingData)
| HasCompletedOnboarding (userId : string)
| GetUserProfile (userId : string).

Inductive Answer : Type :=
| Completed (r : OnboardingResult)
| Flag (b : bool)
| Profile (p : option Row).

Definition perform (c : Call) : St Db Answer :=
  match c with
  | CompleteOnboarding u data =>
      let* r := completeOnboarding u data in ret (Completed r)
  | HasCompletedOnboarding u =>
      let* b := hasCompletedOnboarding u in ret (Flag b)
  | GetUserProfile u =>
      let* p := getUserProfile u in ret (Profile p)
  end.

(** The calls of a history, one after the other, each with its answer. *)
Fixpoint run (cs : list Call) : St Db (list (Call * Answer)) :=
  match cs with
  | [] => ret []
  | c :: rest =>
      let* a := perform c in
      let* h := run rest in
      ret ((c, a) :: h)
  end.

End Service.

End Onboarding.

(* ===================================================================== *)
(** ** Listing creation (app/api/listings/route.ts, [POST]) *)
(* ===================================================================== *)

Module Listings.
Import Store.
Local Open Scope js_scope.
Local Open Scope string_scope.

(** *** The backend behind the route *)

(** What [map[key] || key] gives on one of the object literals of the
    route: a text, or, when [key] names a property that an object literal
    inherits from [Object.prototype], that member itself (a function; the
    prototype object for [__proto__]). *)
Inductive Value : Type :=
| Text (s : string)
| Member (name : string).

(** A row of [items] as the route passes it to [insert]; [price] is the
    text that [parseFloat] reads. *)
Record Item := {
  i_title : string;
  i_description : string;
  i_price : string;
  i_condition : Value;
  i_status : Value;
  i_user_id : string;
  i_category_id : Z;
  i_school : string
}.

Record ItemImage := { item_id : Z; image_url : string }.

(** The requests the route sends. *)
Inductive Op : Type :=
| OpGetUser (token : string)
| OpSelectUser (userId : string)
| OpUpload (name : string)
| OpSelectCategory (name : string)
| OpSelectCategories
| OpInsertItem (row : Item)
| OpInsertImages (rows : list ItemImage)
| OpDeleteItem (id : Z).

(** The database of [Store] with the tables of the listings, the
    sequence of item ids and the [listings] bucket of the object storage.
    [journal] is not part of the backend: it records, latest first, every
    request sent and what happened to it. *)
Record Backend := {
  base : Db;
  categories : gmap string Z;          (* name to id *)
  items : gmap Z Item;                 (* id to row *)
  item_images : list ItemImage;
  next_item_id : Z;
  bucket : list string;                (* names of the stored objects *)
  journal : list (Op * Outcome)
}.

Definition with_base (d : Db) (b : Backend) : Backend :=
  {| base := d; categories := categories b; items := items b;
     item_images := item_images b; next_item_id := next_item_id b;
     bucket := bucket b; journal := journal b |}.

Definition with_items (f : gmap Z Item -> gmap Z Item) (b : Backend) : Backend :=
  {| base := base b; categories := categories b; items := f (items b);
     item_images := item_images b; next_item_id := next_item_id b;
     bucket := bucket b; journal := journal b |}.

Definition with_item_images (l : list ItemImage) (b : Backend) : Backend :=
  {| base := base b; categories := categories b; items := items b;
     item_images := l; next_item_id := next_item_id b; bucket := bucket b;
     journal := journal b |}.

Definition with_next_item_id (n : Z) (b : Backend) : Backend :=
  {| base := base b; categories := categories b; items := items b;
     item_images := item_images b; next_item_id := n; bucket := bucket b;
     journal := journal b |}.

Definition with_bucket (l : list string) (b : Backend) : Backend :=
  {| base := base b; categories := categories b; items := items b;
     item_images := item_images b; next_item_id := next_item_id b;
     bucket := l; journal := journal b |}.

Definition with_journal (j : list (Op * Outcome)) (b : Backend) : Backend :=
  {| base := base b; categories := categories b; items := items b;
     item_images := item_images b; next_item_id := next_item_id b;
     bucket := bucket b; journal := j |}.

(** A computation on the database, run on the backend. *)
Definition on_base {A} (m : St Db A) : St Backend A :=
  fun b => let (a, d) := m (base b) in (a, with_base d b).

(** One request to the backend; see [Store.request]. *)
Definition request {A} (op : Op) (action : St Backend (Reply A))
  : StX Backend string (Reply A) :=
  let* o := on_base next_outcome in
  let* b := get in
  modify (with_journal ((op, o) :: journal b)) ;;
  match o with
  | Proceed => let* r := action in ok r
  | Refuse e => ok (Failed e)
  | Throw msg => throw msg
  end.

(** *** The request and the response *)

Record File := { f_name : string; f_type : string }.

(** The fields of the multipart form; an absent field is [None]. *)
Record Form := {
  title : option string;
  description : option string;
  price : option string;
  category : option string;
  condition : option string;
  status : option string;
  images : list File
}.

Record Request := {
  authorization : option string;      (* the Authorization header *)
  form : string + Form                (* [inl msg]: formData() throws Error(msg) *)
}.

Record ListingResult := {
  l_id : Z;
  l_title : string;
  l_description : string;
  l_price : string;
  l_category : string;
  l_condition : string;
  l_status : string;
  l_userId : string;
  l_images : list string
}.

Inductive Body : Type :=
| ErrorBody (error : string)
| SuccessBody (data : ListingResult).

Record Response := { code : Z; body : Body }.

Definition json_error (error : string) (status : Z) : Response :=
  {| code := status; body := ErrorBody error |}.

(** [!s] for a form field. *)
Definition missing (s : option string) : bool :=
  match s with
  | Some t => negb (Js.truthy_string t)
  | None => true
  end.

Definition conditionMap (c : string) : option string :=
  if String.eqb c "Brand New" then Some "new"
  else if String.eqb c "Like New" then Some "like_new"
  else if String.eqb c "Good" then Some "good"
  else if String.eqb c "Fair" then Some "fair"
  else None.

Definition statusMap (s : string) : option string :=
  if String.eqb s "Available" then Some "available"
  else if String.eqb s "Reserved" then Some "reserved"
  else if String.eqb s "Sold" then Some "sold"
  else None.

Definition categoryNameMap (c : string) : option string :=
  if String.eqb c "essentials" then Some "School Essentials"
  else if String.eqb c "clothing" then Some "Thrift & Clothing"
  else if String.eqb c "gadgets" then Some "Gadgets"
  else if String.eqb c "food" then Some "Food & Snacks"
  else if String.eqb c "dorm" then Some "Dorm/Boarding"
  else if String.eqb c "services" then Some "Services"
  else None.

(** The names of the properties of [Object.prototype]. *)
Definition inherited_names : list string :=
  ["constructor"; "__defineGetter__"; "__defineSetter__"; "hasOwnProperty";
   "__lookupGetter__"; "__lookupSetter__"; "isPrototypeOf";
   "propertyIsEnumerable"; "toString"; "valueOf"; "__proto__";
   "toLocaleString"].

Definition inherited (key : string) : bool :=
  existsb (String.eqb key) inherited_names.

(** [map[key] || key], where [map] lists the own properties of the object
    literal: an own property wins; a key that is not one finds the member
    of [Object.prototype] of that name, which is truthy, if there is one,
    and [undefined] otherwise. *)
Definition mapped (map : string -> option string) (key : string) : Value :=
  match map key with
  | Some v => Text (Js.or_string v key)
  | None => if inherited key then Member key else Text key
  end.

(** [String(v)], as a template literal and the filter of a query make it:
    a native function prints as its source text, with the name the function
    has ([Object] for [constructor]). *)
Definition to_text (v : Value) : string :=
  match v with
  | Text s => s
  | Member name =>
      if String.eqb name "__proto__" then "[object Object]"
      else "function "
           ++ (if String.eqb name "constructor" then "Object" else name)
           ++ "() { [native code] }"
  end.

(** [name.split(".").pop()]: what follows the last dot, or the whole name. *)
Fixpoint after_last_dot (name acc : string) : string :=
  match name with
  | EmptyString => acc
  | String c rest =>
      if Ascii.eqb c "."%char then after_last_dot rest rest
      else after_last_dot rest acc
  end.

Definition fileExt (name : string) : string := after_last_dot name name.

(** [s.slice(n)] *)
Fixpoint slice (n : nat) (s : string) : string :=
  match n, s with
  | O, _ => s
  | S n', String _ rest => slice n' rest
  | S _, EmptyString => EmptyString
  end.

Fixpoint join (sep : string) (l : list string) : string :=
  match l with
  | [] => ""
  | [x] => x
  | x :: rest => x ++ sep ++ join sep rest
  end.

Section Route.
(** The user id behind a bearer token, if the token is valid. *)
Variable token_user : string -> option string.
(** The object name made from the user id, [Date.now()], [Math.random()]
    and the extension, for image number [k] of the request. *)
Variable fileName : string -> nat -> string -> string.
(** [getPublicUrl(fileName).data.publicUrl] *)
Variable publicUrl : string -> string.
(** [JSON.stringify(error)] *)
Variable stringify : PgError -> string.

(** [supabase.auth.getUser()] *)
Definition getUser (token : string) : StX Backend string (Reply (option string)) :=
  request (OpGetUser token) (ret (Data (token_user token))).

(** [from("users").select("school").eq("id", userId).single()] *)
Definition select_user (userId : string) : StX Backend string (Reply Row) :=
  request (OpSelectUser userId)
    (let* b := get in
     match users (base b) !! userId with
     | Some row => ret (Data row)
     | None => ret (Failed no_rows)
     end).

(** [storage.from("listings").upload(fileName, buffer, ...)] *)
Definition upload (name : string) : StX Backend string (Reply unit) :=
  request (OpUpload name)
    (let* b := get in
     modify (with_bucket (name :: bucket b)) ;; ret (Data tt)).

(** [from("categories").select("id, name").eq("name", name).single()] *)
Definition select_category (name : string) : StX Backend string (Reply Z) :=
  request (OpSelectCategory name)
    (let* b := get in
     match categories b !! name with
     | Some cid => ret (Data cid)
     | None => ret (Failed no_rows)
     end).

(** [from("categories").select("id, name")] *)
Definition select_categories : StX Backend string (Reply (list string)) :=
  request OpSelectCategories
    (let* b := get in ret (Data (map_to_list (categories b)).*1)).

(** [from("items").insert(row).select().single()]: the database assigns
    the id. *)
Definition insert_item (row : Item) : StX Backend string (Reply Z) :=
  request (OpInsertItem row)
    (let* b := get in
     let new_id := next_item_id b in
     modify (with_next_item_id (new_id + 1)) ;;
     modify (with_items <[new_id := row]>) ;;
     ret (Data new_id)).

(** [from("item_images").insert(rows)] *)
Definition insert_images (rows : list ItemImage) : StX Backend string (Reply unit) :=
  request (OpInsertImages rows)
    (let* b := get in
     modify (with_item_images (item_images b ++ rows)) ;; ret (Data tt)).

(** [from("items").delete().eq("id", id)] *)
Definition delete_item (id : Z) : StX Backend string (Reply unit) :=
  request (OpDeleteItem id) (modify (with_items (delete id)) ;; ret (Data tt)).

(** The loop over the images: upload each, collect the public URLs. *)
Fixpoint upload_all (uid : string) (k : nat) (files : list File)
  : StX Backend string (list string) :=
  match files with
  | [] => ok []
  | image :: rest =>
      let name := fileName uid k (fileExt (f_name image)) in
      let? r := upload name in
      match r with
      | Failed uploadError =>
          throw ("Failed to upload image: "
                 ++ Js.or_string (pg_message uploadError) "Unknown error")
      | Data _ =>
          let? urls := upload_all uid (S k) rest in
          ok (publicUrl name :: urls)
      end
  end.

(** The part of the handler after the form has been validated. *)
Definition create_listing (uid userSchool : string)
    (title description price category condition status : string)
    (images : list File) : StX Backend string Response :=
  let dbCondition := mapped conditionMap condition in
  let dbStatus := mapped statusMap status in
  let? imageUrls := upload_all uid 0 images in
  let dbCategoryName := mapped categoryNameMap category in
  let? cat := select_category (to_text dbCategoryName) in
  match cat with
  | Failed _ =>
      let? allCategories := select_categories in
      throw ("Category not found: " ++ to_text dbCategoryName
             ++ ". Available categories: "
             ++ match allCategories with
                | Data names => join ", " names
                | Failed _ => "undefined"
                end)
  | Data category_id =>
      let? inserted :=
        insert_item {| i_title := title; i_description := description;
                       i_price := price; i_condition := dbCondition;
                       i_status := dbStatus; i_user_id := uid;
                       i_category_id := category_id;
                       i_school := userSchool |} in
      match inserted with
      | Failed itemError =>
          throw ("Failed to create item: "
                 ++ Js.or_string (pg_message itemError) (stringify itemError))
      | Data itemId =>
          let imageInserts :=
            map (fun url => {| item_id := itemId; image_url := url |})
              imageUrls in
          let? saved := insert_images imageInserts in
          match saved with
          | Failed _ =>
              (* Rollback: delete the item *)
              let? _ := delete_item itemId in
              throw "Failed to save images"
          | Data _ =>
              ok {| code := 200;
                    body := SuccessBody
                      {| l_id := itemId; l_title := title;
                         l_description := description; l_price := price;
                         l_category := category; l_condition := condition;
                         l_status := status; l_userId := uid;
                         l_images := imageUrls |} |}
          end
      end
  end.

(** The body of the [try]. *)
Definition POST_try (req : Request) : StX Backend string Response :=
  match authorization req with
  | None => ok (json_error "Unauthorized" 401)
  | Some authHeader =>
      if negb (Js.starts_with "Bearer " authHeader) then
        ok (json_error "Unauthorized" 401)
      else
        let token := slice 7 authHeader in
        let? auth := getUser token in
        match auth with
        | Failed _ | Data None => ok (json_error "Unauthorized" 401)
        | Data (Some uid) =>
            let? userData := select_user uid in
            match userData with
            | Data {| school := Some userSchool |} =>
                if negb (Js.truthy_string userSchool) then
                  ok (json_error
                        "User school not found. Please complete your profile."
                        400)
                else
                  match form req with
                  | inl msg => throw msg
                  | inr f =>
                      match title f, description f, price f, category f,
                            condition f, status f with
                      | Some t, Some d, Some p, Some c, Some cn, Some s =>
                          if negb (Js.truthy_string t)
                             || negb (Js.truthy_string d)
                             || negb (Js.truthy_string p)
                             || negb (Js.truthy_string c)
                             || negb (Js.truthy_string cn)
                             || negb (Js.truthy_string s) then
                            ok (json_error "Missing required fields" 400)
                          else if (length (images f) =? 0)%nat then
                            ok (json_error "At least one image is required" 400)
                          else create_listing uid userSchool t d p c cn s (images f)
                      | _, _, _, _, _, _ =>
                          ok (json_error "Missing required fields" 400)
                      end
                  end
            | _ =>
                ok (json_error
                      "User school not found. Please complete your profile."
                      400)
            end
        end
  end.

Definition POST (req : Request) : St Backend Response :=
  let* r := POST_try req in
  match r with
  | inr response => ret response
  | inl message =>
      if String.eqb message "Unauthorized: No valid session" then
        ret (json_error "Unauthorized" 401)
      else ret (json_error message 500)
  end.

End Route.

End Listings.

(* ===================================================================== *)
(** ** Readers of the profile store *)
(* ===================================================================== *)

(** The page that decides where to send the user after the OAuth
    callback (app/auth/callback/callback-content.tsx) and the admin check of
    lib/authServer.ts. *)

Module Gate.
Import Store Onboarding.
Local Open Scope js_scope.
Local Open Scope string_scope.

(** [checkOnboardingAndRedirect] of the OAuth callback page: the route it
    pushes, if any.  [hasCompletedOnboarding] does not throw, so the [catch]
    of the page is not reached. *)
Definition checkOnboardingAndRedirect (exchangingSession authLoading : bool)
    (user : option string) : St Db (option string) :=
  if exchangingSession || authLoading then ret None
  else
    match user with
    | None => ret (Some "/")
    | Some userId =>
        let* completed := hasCompletedOnboarding userId in
        if completed then ret (Some "/home") else ret (Some "/onboarding")
    end.

(** [requireAdminAccess]; [configured] says whether the two environment
    variables that [createServerSupabaseClient] needs are set (it throws
    otherwise, inside the [try]). *)
Definition requireAdminAccess (configured : bool) (userId : string) : St Db bool :=
  if negb configured then ret false
  else
    let* r := select_single userId in
    match r with
    | inl _ => ret false
    | inr (Failed _) => ret false
    | inr (Data row) =>
        ret (match is_admin row with Some true => true | _ => false end)
    end.

End Gate.

(* ===================================================================== *)
(** ** Facts about the matcher *)
(* ===================================================================== *)

Module RegexFacts.
Import Regex.

Lemma eps_inv w : lang Eps w -> w = [].
Proof. intros H; inversion H; reflexivity. Qed.

Lemma class_inv p w : lang (Class p) w -> exists c, w = [c] /\ p c = true.
Proof. intros H; inversion H; subst; eauto. Qed.

Lemma cat_inv r s w :
  lang (Cat r s) w -> exists u v, w = u ++ v /\ lang r u /\ lang s v.
Proof. intros H; inversion H; subst; eauto. Qed.

Lemma alt_inv r s w : lang (Alt r s) w -> lang r w \/ lang s w.
Proof. intros H; inversion H; subst; auto. Qed.

Lemma void_inv w : ~ lang Void w.
Proof. intros H; inversion H. Qed.

Lemma cat_cons r s c u v : lang r (c :: u) -> lang s v -> lang (Cat r s) (c :: u ++ v).
Proof. intros Hu Hv. apply (lang_cat r s (c :: u) v Hu Hv). Qed.

Lemma nullable_lang r : nullable r = true <-> lang r [].
Proof.
  induction r as [| |p|r1 IH1 r2 IH2|r1 IH1 r2 IH2|r IH]; simpl.
  - split; [discriminate | intro H; destruct (void_inv _ H)].
  - split; [constructor | reflexivity].
  - split; [discriminate|].
    intro H. apply class_inv in H as (c & Hc & _). discriminate.
  - rewrite andb_true_iff, IH1, IH2. split.
    + intros [H1 H2]. apply (lang_cat r1 r2 [] [] H1 H2).
    + intro H. apply cat_inv in H as (u & v & Heq & Hu & Hv).
      symmetry in Heq. apply app_eq_nil in Heq as [-> ->]. auto.
  - rewrite orb_true_iff, IH1, IH2. split.
    + intros [H | H]; [apply lang_alt_l | apply lang_alt_r]; assumption.
    + apply alt_inv.
  - split; [constructor | reflexivity].
Qed.

(** A non-empty word of [Star r] begins with a non-empty word of [r]. *)
Lemma star_cons_inv r c w :
  lang (Star r) (c :: w) ->
  exists u v, w = u ++ v /\ lang r (c :: u) /\ lang (Star r) v.
Proof.
  intros H. remember (Star r) as sr eqn:Hsr. remember (c :: w) as cw eqn:Hcw.
  revert c w Hcw Hsr.
  induction H as [| | | | | |r' u v Hu _ Hv IHv]; intros a x Hcw Hsr;
    try discriminate.
  injection Hsr as Hr. subst r'.
  destruct u as [|c' u']; simpl in Hcw.
  - apply IHv; auto.
  - injection Hcw as Hc Hx. subst c' x. exists u', v. auto.
Qed.

Lemma deriv_cat_sound c r1 r2 w
    (IH1 : forall w, lang (deriv c r1) w <-> lang r1 (c :: w)) :
  lang (Cat (deriv c r1) r2) w -> lang (Cat r1 r2) (c :: w).
Proof.
  intro H. apply cat_inv in H as (u & v & -> & Hu & Hv).
  apply cat_cons; [apply IH1|]; assumption.
Qed.

Lemma deriv_lang c r w : lang (deriv c r) w <-> lang r (c :: w).
Proof.
  revert w. induction r as [| |p|r1 IH1 r2 IH2|r1 IH1 r2 IH2|r IH];
    intros w; simpl.
  - split; intro H; destruct (void_inv _ H).
  - split; intro H; [destruct (void_inv _ H) | apply eps_inv in H; discriminate].
  - destruct (p c) eqn:Hp; split; intro H.
    + apply eps_inv in H as ->. constructor; assumption.
    + apply class_inv in H as (c' & Heq & _).
      injection Heq as _ Hw. subst w. constructor.
    + destruct (void_inv _ H).
    + apply class_inv in H as (c' & Heq & Hp').
      injection Heq as Hc _. subst c'. congruence.
  - split.
    + intro H. destruct (nullable r1) eqn:Hn.
      * apply alt_inv in H as [H | H].
        -- apply deriv_cat_sound; assumption.
        -- apply (lang_cat r1 r2 [] (c :: w)).
           ++ apply nullable_lang; assumption.
           ++ apply IH2; assumption.
      * apply deriv_cat_sound; assumption.
    + intro H. apply cat_inv in H as (u & v & Heq & Hu & Hv).
      destruct u as [|c' u']; simpl in Heq.
      * subst v. apply nullable_lang in Hu. rewrite Hu.
        apply lang_alt_r, IH2; assumption.
      * injection Heq as Hc Hw. subst c' w.
        assert (Hc : lang (Cat (deriv c r1) r2) (u' ++ v)).
        { constructor; auto. apply IH1; assumption. }
        destruct (nullable r1); [apply lang_alt_l|]; assumption.
  - split; intro H; apply alt_inv in H as [H | H].
    + apply lang_alt_l, IH1; assumption.
    + apply lang_alt_r, IH2; assumption.
    + apply lang_alt_l, IH1; assumption.
    + apply lang_alt_r, IH2; assumption.
  - split; intro H.
    + apply cat_inv in H as (u & v & -> & Hu & Hv).
      apply (lang_star_cons r (c :: u) v); [apply IH|]; assumption.
    + apply star_cons_inv in H as (u & v & -> & Hu & Hv).
      constructor; auto. apply IH; assumption.
Qed.

Lemma accepts_lang r w : accepts r w = true <-> lang r w.
Proof.
  revert r. induction w as [|c w IH]; intros r; simpl.
  - apply nullable_lang.
  - rewrite IH. apply deriv_lang.
Qed.

Lemma star_any w : lang (Star any) w.
Proof.
  induction w as [|c w IH]; [constructor|].
  apply (lang_star_cons any [c] w); [constructor; reflexivity | assumption].
Qed.

(** An unanchored single class matches when some code unit is in it. *)
Lemma test_class p w :
  test (Class p) w = true <-> exists c, In c w /\ p c = true.
Proof.
  unfold test. rewrite accepts_lang. split.
  - intro H. apply cat_inv in H as (u & v & -> & _ & Hv).
    apply cat_inv in Hv as (u' & v' & -> & Hu' & _).
    apply class_inv in Hu' as (c & -> & Hp). exists c. split; [|assumption].
    apply in_or_app. right. left. reflexivity.
  - intros (c & Hin & Hp). apply in_split in Hin as (u & v & ->).
    constructor; [apply star_any|].
    apply (lang_cat (Class p) (Star any) [c] v); [|apply star_any].
    constructor; assumption.
Qed.

End RegexFacts.

(* ===================================================================== *)
(** ** Password rules *)
(* ===================================================================== *)

Module ValidatorFacts.
Import Regex Validator RegexFacts.

(** The password contains a code unit of the class [p]. *)
Definition contains (p : N -> bool) (password : list N) : Prop :=
  exists c, In c password /\ p c = true.

Lemma test_false_iff p w : test (Class p) w = false <-> ~ contains p w.
Proof.
  unfold contains. rewrite <- test_class.
  destruct (test (Class p) w); split; intro H; congruence.
Qed.

Example validatePassword_abc12345 :
  validatePassword (Js.units "abc12345") =
  {| valid := false; message := Some msg_upper |}.
Proof. reflexivity. Qed.

Example validatePassword_MyPassword123 :
  validatePassword (Js.units "MyPassword123") =
  {| valid := true; message := None |}.
Proof. reflexivity. Qed.

Example validatePassword_short :
  validatePassword (Js.units "Ab1") =
  {| valid := false; message := Some msg_length |}.
Proof. reflexivity. Qed.

(** C4. [validatePassword p] is valid exactly when [p] has at least 8
    code units and contains an uppercase letter (A-Z), a lowercase letter
    (a-z) and a digit (0-9); otherwise the message is the one of the first
    rule that fails, in the order length, uppercase, lowercase, digit; in
    particular "abc12345" fails with the uppercase message. *)
Theorem validatePassword_rules (p : list N) :
  (valid (validatePassword p) = true <->
     (8 <= length p)%nat /\ contains is_upper p /\ contains is_lower p
     /\ contains is_digit p)
  /\ ((length p < 8)%nat ->
        validatePassword p = {| valid := false; message := Some msg_length |})
  /\ ((8 <= length p)%nat -> ~ contains is_upper p ->
        validatePassword p = {| valid := false; message := Some msg_upper |})
  /\ ((8 <= length p)%nat -> contains is_upper p -> ~ contains is_lower p ->
        validatePassword p = {| valid := false; message := Some msg_lower |})
  /\ ((8 <= length p)%nat -> contains is_upper p -> contains is_lower p ->
      ~ contains is_digit p ->
        validatePassword p = {| valid := false; message := Some msg_digit |})
  /\ validatePassword (Js.units "abc12345") =
       {| valid := false; message := Some msg_upper |}.
Proof.
  unfold validatePassword.
  destruct (Z.ltb_spec (Z.of_nat (length p)) 8) as [Hlen | Hlen].
  { repeat split; try reflexivity; simpl; try discriminate; lia. }
  destruct (test (Class is_upper) p) eqn:Hu; simpl.
  2:{ apply test_false_iff in Hu.
      repeat split; try reflexivity; simpl; try discriminate;
        try tauto; try lia. }
  apply test_class in Hu.
  destruct (test (Class is_lower) p) eqn:Hl; simpl.
  2:{ apply test_false_iff in Hl.
      repeat split; try reflexivity; simpl; try discriminate;
        try tauto; try lia. }
  apply test_class in Hl.
  destruct (test (Class is_digit) p) eqn:Hd; simpl.
  2:{ apply test_false_iff in Hd.
      repeat split; try reflexivity; simpl; try discriminate;
        try tauto; try lia. }
  apply test_class in Hd.
  repeat split; try reflexivity; simpl; try discriminate;
    try tauto; try lia; auto.
Qed.

End ValidatorFacts.

(* ===================================================================== *)
(** ** Properties of the throttle *)
(* ===================================================================== *)

Module RateLimiterFacts.
Import Runtime RateLimiter.

Ltac run :=
  unfold recordAttempt, isLocked, getLockoutTimeRemaining, lockedUntil_and,
    write_through, date_now, bind, get, modify, ret; cbn.

Definition allowed_result : AttemptResult := {| allowed := true; remaining := 0 |}.

(** An expiry after a reading of the clock is not 0, so it is truthy. *)
Lemma truthy_future (t : N) (l : Z) : Z.of_N t < l -> Js.truthy_num l = true.
Proof.
  intro H. unfold Js.truthy_num. destruct (Z.eqb_spec l 0); [lia | reflexivity].
Qed.

Section Steps.
Variable clock : nat -> N.
Variable config : RateLimitConfig.

(** The first read of the clock in a call made in state [w]. *)
Definition now_of (w : World) : Z := Z.of_N (clock (reads w)).

(** No record yet: a record with count 1 is created. *)
Lemma recordAttempt_new identifier w :
  store w !! identifier = None ->
  recordAttempt clock config identifier w =
  (allowed_result,
   with_store <[identifier := fresh_entry (now_of w)]>
     (with_reads (S (reads w)) w)).
Proof. intros H. run. rewrite H. reflexivity. Qed.

(** A record that was never locked, inside the window, below the
    maximum: the count goes up by one. *)
Lemma recordAttempt_count identifier w e :
  store w !! identifier = Some e ->
  lockedUntil e = None ->
  now_of w - firstAttemptTime e <= windowMs config ->
  attempts e + 1 <= maxAttempts config ->
  recordAttempt clock config identifier w =
  (allowed_result,
   with_store <[identifier := {| attempts := attempts e + 1;
                                 firstAttemptTime := firstAttemptTime e;
                                 lockedUntil := None |}]>
     (with_reads (S (reads w)) w)).
Proof.
  intros H Hl Hw Hm. run. rewrite H. cbn. rewrite Hl. cbn.
  fold (now_of w).
  destruct (Z.gtb_spec (now_of w - firstAttemptTime e) (windowMs config)); [lia|].
  destruct (Z.gtb_spec (attempts e + 1) (maxAttempts config)); [lia|].
  unfold with_store; cbn. rewrite H. reflexivity.
Qed.

(** The same record one attempt above the maximum: the lockout is set
    and the call is refused with the whole lockout as remaining time. *)
Lemma recordAttempt_trip identifier w e :
  store w !! identifier = Some e ->
  lockedUntil e = None ->
  now_of w - firstAttemptTime e <= windowMs config ->
  maxAttempts config < attempts e + 1 ->
  recordAttempt clock config identifier w =
  ({| allowed := false; remaining := lockoutMs config |},
   with_store <[identifier := {| attempts := attempts e + 1;
                                 firstAttemptTime := firstAttemptTime e;
                                 lockedUntil := Some (now_of w + lockoutMs config) |}]>
     (with_reads (S (reads w)) w)).
Proof.
  intros H Hl Hw Hm. run. rewrite H. cbn. rewrite Hl. cbn.
  fold (now_of w).
  destruct (Z.gtb_spec (now_of w - firstAttemptTime e) (windowMs config)); [lia|].
  destruct (Z.gtb_spec (attempts e + 1) (maxAttempts config)); [|lia].
  unfold with_store; cbn. rewrite H. reflexivity.
Qed.

(** A locked record: the call reads the clock three times, is refused,
    and writes nothing to the store. *)
Lemma recordAttempt_locked identifier w e l :
  store w !! identifier = Some e ->
  lockedUntil e = Some l ->
  Z.of_N (clock (S (reads w))) < l ->
  Z.of_N (clock (S (S (reads w)))) < l ->
  recordAttempt clock config identifier w =
  ({| allowed := false;
      remaining := l - Z.of_N (clock (S (S (reads w)))) |},
   with_reads (S (S (S (reads w)))) w).
Proof.
  intros H Hl H1 H2. run. rewrite H. cbn. rewrite Hl.
  pose proof (truthy_future _ _ H1) as Ht. rewrite Ht. cbn.
  destruct (Z.ltb_spec (Z.of_N (clock (S (reads w)))) l); [|lia].
  cbn. rewrite H, Hl, Ht. cbn.
  destruct (Z.gtb_spec (l - Z.of_N (clock (S (S (reads w))))) 0); [|lia].
  reflexivity.
Qed.

End Steps.

(** C2. For an identifier without a record, five calls of
    [recordAttempt] in a row, each within the 15-minute window of the
    first, are allowed; the sixth is refused with the whole lockout
    (1,800,000 ms) as remaining time, and sets the lockout expiry to the
    time of that call plus 30 minutes. *)
Theorem sixth_attempt_locks (clock : nat -> N) (identifier : list N) (w : World) :
  store w !! identifier = None ->
  (forall k, (1 <= k <= 5)%nat ->
     Z.of_N (clock (reads w + k)%nat) - Z.of_N (clock (reads w))
     <= windowMs DEFAULT_CONFIG) ->
  fst (recordAttempts clock DEFAULT_CONFIG 6 identifier w) =
    [allowed_result; allowed_result; allowed_result; allowed_result;
     allowed_result; {| allowed := false; remaining := 1800000 |}]
  /\ store (snd (recordAttempts clock DEFAULT_CONFIG 6 identifier w))
       !! identifier =
     Some {| attempts := 6;
             firstAttemptTime := Z.of_N (clock (reads w));
             lockedUntil :=
               Some (Z.of_N (clock (reads w + 5)%nat) + 1800000) |}.
Proof.
  intros Hnone Hwin.
  assert (H1 := Hwin 1%nat ltac:(lia)). assert (H2 := Hwin 2%nat ltac:(lia)).
  assert (H3 := Hwin 3%nat ltac:(lia)). assert (H4 := Hwin 4%nat ltac:(lia)).
  assert (H5 := Hwin 5%nat ltac:(lia)). clear Hwin.
  replace (reads w + 1)%nat with (S (reads w)) in H1 by lia.
  replace (reads w + 2)%nat with (S (S (reads w))) in H2 by lia.
  replace (reads w + 3)%nat with (S (S (S (reads w)))) in H3 by lia.
  replace (reads w + 4)%nat with (S (S (S (S (reads w))))) in H4 by lia.
  replace (reads w + 5)%nat with (S (S (S (S (S (reads w)))))) in * by lia.
  cbn [recordAttempts]. unfold bind.
  rewrite (recordAttempt_new _ _ _ _ Hnone).
  do 4 (erewrite recordAttempt_count;
        [ | cbn; apply lookup_insert_eq | reflexivity
          | unfold now_of; cbn; assumption | cbn; lia ]).
  erewrite recordAttempt_trip;
    [ | cbn; apply lookup_insert_eq | reflexivity
      | unfold now_of; cbn; assumption | cbn; lia ].
  cbn. split; [reflexivity|]. rewrite lookup_insert_eq. reflexivity.
Qed.

(** Its hypotheses hold for an empty store and a clock that stands
    still. *)
Definition empty_world : World :=
  {| store := ∅; reads := 0; calls := []; sessionKeys := ∅; localKeys := ∅;
     user := None; session := None; loading := false; error := None |}.

Lemma sixth_attempt_locks_witness :
  fst (recordAttempts (fun _ => 1000%N) DEFAULT_CONFIG 6 (Js.units "a@b.com")
         empty_world) =
    [allowed_result; allowed_result; allowed_result; allowed_result;
     allowed_result; {| allowed := false; remaining := 1800000 |}]
  /\ store (snd (recordAttempts (fun _ => 1000%N) DEFAULT_CONFIG 6
                   (Js.units "a@b.com") empty_world))
       !! Js.units "a@b.com" =
     Some {| attempts := 6; firstAttemptTime := 1000;
             lockedUntil := Some (1000 + 1800000) |}.
Proof.
  apply (sixth_attempt_locks (fun _ => 1000%N) (Js.units "a@b.com") empty_world).
  - reflexivity.
  - intros k _. cbn. lia.
Defined.

(** Attempts in a row on a locked identifier (its lockout expiry is set
    and every later reading of the clock is before it): each is refused,
    and the store, so also the attempt count of the record, stays as it
    was. *)
Lemma locked_attempts_refused (clock : nat -> N) (config : RateLimitConfig)
    (identifier : list N) (n : nat) (w : World) (e : Entry) (l : Z) :
  store w !! identifier = Some e ->
  lockedUntil e = Some l ->
  (forall k, (reads w <= k)%nat -> Z.of_N (clock k) < l) ->
  length (fst (recordAttempts clock config n identifier w)) = n
  /\ Forall (fun r => allowed r = false)
       (fst (recordAttempts clock config n identifier w))
  /\ store (snd (recordAttempts clock config n identifier w)) = store w
  /\ attempts <$> store (snd (recordAttempts clock config n identifier w))
                   !! identifier = Some (attempts e).
Proof.
  revert w. induction n as [|n IH]; intros w He Hl Hbefore.
  - cbn. rewrite He. repeat split; constructor.
  - cbn [recordAttempts]. unfold bind.
    rewrite (recordAttempt_locked clock config identifier w e l He Hl)
      by (apply Hbefore; lia).
    specialize (IH (with_reads (S (S (S (reads w)))) w)).
    destruct (recordAttempts clock config n identifier
                (with_reads (S (S (S (reads w)))) w)) as [rs w'] eqn:Hrun.
    cbn in IH |- *.
    destruct IH as (Hlen & Hall & Hstore & Hcount);
      [assumption | assumption | intros k Hk; apply Hbefore; lia |].
    repeat split.
    + rewrite Hlen. reflexivity.
    + constructor; [reflexivity | assumption].
    + assumption.
    + assumption.
Qed.

Definition locked_entry : Entry :=
  {| attempts := 6; firstAttemptTime := 1000; lockedUntil := Some 1801000 |}.

Definition locked_world : World :=
  with_store <[Js.units "a@b.com" := locked_entry]> empty_world.

Lemma locked_attempts_refused_witness :
  length (fst (recordAttempts (fun _ => 2000%N) DEFAULT_CONFIG 3
                 (Js.units "a@b.com") locked_world)) = 3%nat
  /\ Forall (fun r => allowed r = false)
       (fst (recordAttempts (fun _ => 2000%N) DEFAULT_CONFIG 3
               (Js.units "a@b.com") locked_world))
  /\ store (snd (recordAttempts (fun _ => 2000%N) DEFAULT_CONFIG 3
                   (Js.units "a@b.com") locked_world)) = store locked_world
  /\ attempts <$> store (snd (recordAttempts (fun _ => 2000%N) DEFAULT_CONFIG 3
                              (Js.units "a@b.com") locked_world))
                   !! Js.units "a@b.com" = Some 6.
Proof.
  apply (locked_attempts_refused (fun _ => 2000%N) DEFAULT_CONFIG
           (Js.units "a@b.com") 3 locked_world locked_entry 1801000).
  - reflexivity.
  - reflexivity.
  - intros k _. cbn. lia.
Defined.

Section Remaining.
Variable clock : nat -> N.
Variable config : RateLimitConfig.

(** The identifier is locked at the reading [t] of the clock. *)
Definition locked_at (t : Z) (w : World) (identifier : list N) : Prop :=
  exists e l, store w !! identifier = Some e /\ lockedUntil e = Some l
              /\ t < l.

(** One more attempt takes the record above the maximum. *)
Definition trips (w : World) (identifier : list N) : Prop :=
  exists e, store w !! identifier = Some e
            /\ maxAttempts config < attempts e + 1.

(** C10. In every state of the throttle, an allowed attempt comes
    with remaining time 0; a positive remaining time comes only with a
    refused attempt, either because the identifier is locked when
    [isLocked] reads the clock or because this call takes the count
    above the maximum. *)
Theorem allowed_has_no_remaining (identifier : list N) (w : World) :
  let r := fst (recordAttempt clock config identifier w) in
  (allowed r = true -> remaining r = 0)
  /\ (0 < remaining r ->
       allowed r = false
       /\ (locked_at (Z.of_N (clock (S (reads w)))) w identifier
           \/ (trips w identifier /\ remaining r = lockoutMs config))).
Proof.
  unfold locked_at, trips. run.
  destruct (store w !! identifier) as [e|] eqn:He; cbn.
  2:{ split; [reflexivity | lia]. }
  destruct (lockedUntil e) as [l|] eqn:Hl; cbn.
  - destruct (Js.truthy_num l) eqn:Ht; cbn.
    + destruct (Z.ltb_spec (Z.of_N (clock (S (reads w)))) l) as [Hlt|Hge]; cbn.
      * rewrite He, Hl, Ht. cbn. split; [discriminate|].
        intros _. split; [reflexivity|]. left. eauto.
      * destruct (Z.geb_spec (Z.of_N (clock (S (S (reads w))))) l); cbn.
        -- destruct (_ >? windowMs config); cbn; [split; [reflexivity|lia]|].
           destruct (Z.gtb_spec (attempts e + 1) (maxAttempts config)); cbn.
           ++ split; [discriminate|]. intros _. split; [reflexivity|].
              right. split; [exists e; split; [reflexivity | lia] | reflexivity].
           ++ split; [reflexivity | lia].
        -- destruct (_ >? windowMs config); cbn; [split; [reflexivity|lia]|].
           destruct (Z.gtb_spec (attempts e + 1) (maxAttempts config)); cbn.
           ++ split; [discriminate|]. intros _. split; [reflexivity|].
              right. split; [exists e; split; [reflexivity | lia] | reflexivity].
           ++ split; [reflexivity | lia].
    + destruct (_ >? windowMs config); cbn; [split; [reflexivity|lia]|].
      destruct (Z.gtb_spec (attempts e + 1) (maxAttempts config)); cbn.
      * split; [discriminate|]. intros _. split; [reflexivity|].
        right. split; [exists e; split; [reflexivity | lia] | reflexivity].
      * split; [reflexivity | lia].
  - destruct (_ >? windowMs config); cbn; [split; [reflexivity|lia]|].
    destruct (Z.gtb_spec (attempts e + 1) (maxAttempts config)); cbn.
    + split; [discriminate|]. intros _. split; [reflexivity|].
      right. split; [exists e; split; [reflexivity | lia] | reflexivity].
    + split; [reflexivity | lia].
Qed.

End Remaining.

End RateLimiterFacts.

(* ===================================================================== *)
(** ** Properties of the service and of the orchestrator *)
(* ===================================================================== *)

Module AuthFacts.
Import Validator Runtime RateLimiter AuthService AuthProvider RateLimiterFacts.

(** The four [useState] cells of [AuthProvider] are the same in both
    states. *)
Definition same_ui (w w' : World) : Prop :=
  user w' = user w /\ session w' = session w
  /\ loading w' = loading w /\ error w' = error w.

Lemma same_ui_refl w : same_ui w w.
Proof. repeat split. Qed.

Lemma same_ui_trans w1 w2 w3 : same_ui w1 w2 -> same_ui w2 w3 -> same_ui w1 w3.
Proof. unfold same_ui. intuition congruence. Qed.

Ltac monad :=
  unfold finally, try_catch, bindX, bind, throw, ok, get, modify, ret,
    setUser, setSession, setLoading, setError, report in *.

(** Case analysis on a scrutinee that has no case analysis inside. *)
Ltac branches :=
  repeat match goal with
         | |- context [match ?x with _ => _ end] =>
             lazymatch x with
             | context [match _ with _ => _ end] => fail
             | _ => destruct x eqn:?; cbn
             end
         end.

Section Frames.
Variable clock : nat -> N.
Variable window_origin : option string.
Variable provider : list ProviderCall -> Awaited AuthResponse.

(** The limiter does not look at the [useState] cells, and leaves them
    alone. *)
Lemma recordAttempt_ui config identifier b e w :
  recordAttempt clock config identifier (with_error e (with_loading b w)) =
  (fst (recordAttempt clock config identifier w),
   with_error e (with_loading b (snd (recordAttempt clock config identifier w)))).
Proof. run. branches; reflexivity. Qed.

Lemma recordAttempt_same_ui config identifier w :
  same_ui w (snd (recordAttempt clock config identifier w)).
Proof. unfold same_ui. run. branches; repeat split. Qed.

Lemma recordAttempt_calls config identifier w :
  calls (snd (recordAttempt clock config identifier w)) = calls w.
Proof. run. branches; reflexivity. Qed.

Lemma request_checked_same_ui c w :
  same_ui w (snd (request_checked provider c w)).
Proof.
  unfold request_checked, request. monad.
  destruct (provider (c :: calls w)) as [r|err]; cbn;
    [destruct (r_error r)|]; repeat split.
Qed.

Lemma loginWithEmail_same_ui email password w :
  same_ui w (snd (loginWithEmail clock provider email password w)).
Proof.
  unfold loginWithEmail.
  destruct (negb (Js.truthy_units email) || negb (Js.truthy_units password));
    [apply same_ui_refl|].
  destruct (negb (validateEmail email)); [apply same_ui_refl|].
  monad. pose proof (recordAttempt_same_ui DEFAULT_CONFIG email w) as Hr.
  destruct (recordAttempt clock DEFAULT_CONFIG email w) as [r w1]. cbn in Hr.
  destruct (negb (allowed r)); [exact Hr|].
  pose proof (request_checked_same_ui (SignInWithPassword email password) w1) as Hq.
  destruct (request_checked provider (SignInWithPassword email password) w1)
    as [[err|resp] w2]; cbn in Hq |- *.
  - exact (same_ui_trans _ _ _ Hr Hq).
  - destruct (r_user resp), (r_session resp); cbn;
      apply (same_ui_trans _ _ _ Hr), (same_ui_trans _ _ _ Hq);
      repeat split.
Qed.

Lemma signUpWithEmail_same_ui email password fullName w :
  same_ui w (snd (signUpWithEmail window_origin provider email password fullName w)).
Proof.
  unfold signUpWithEmail.
  destruct (_ || _); [apply same_ui_refl|].
  destruct (negb (validateEmail email)); [apply same_ui_refl|].
  destruct (negb (valid (validatePassword password))); [apply same_ui_refl|].
  destruct (_ <? 2); [apply same_ui_refl|].
  monad.
  match goal with
  | |- context [request_checked provider ?c w] =>
      pose proof (request_checked_same_ui c w) as Hq;
      destruct (request_checked provider c w) as [[err|resp] w2]
  end; cbn in Hq |- *; [exact Hq|].
  destruct (r_user resp); exact Hq.
Qed.

Lemma logout_same_ui w :
  same_ui w (snd (logout window_origin provider w)).
Proof.
  unfold logout. monad.
  pose proof (request_checked_same_ui SignOut w) as Hq.
  destruct (request_checked provider SignOut w) as [[err|resp] w2];
    cbn in Hq |- *; [exact Hq|].
  destruct window_origin; cbn; [|exact Hq].
  apply (same_ui_trans _ _ _ Hq). repeat split.
Qed.

Lemma requestPasswordReset_same_ui email w :
  same_ui w (snd (requestPasswordReset window_origin provider email w)).
Proof.
  unfold requestPasswordReset.
  destruct (negb (Js.truthy_units email)); [apply same_ui_refl|].
  destruct (negb (validateEmail email)); [apply same_ui_refl|].
  monad.
  match goal with
  | |- context [request_checked provider ?c w] =>
      pose proof (request_checked_same_ui c w) as Hq;
      destruct (request_checked provider c w) as [[err|resp] w2]
  end; cbn in Hq |- *; exact Hq.
Qed.

End Frames.

Section Orchestrator.
Variable clock : nat -> N.
Variable window_origin : option string.
Variable provider : list ProviderCall -> Awaited AuthResponse.

(** An operation failed with [err]: [err] is in the error cell, and the
    user and session cells hold what they held in [w]. *)
Definition failure_frame (w : World) (out : (AuthError + unit) * World) : Prop :=
  forall err, fst out = inl err ->
    error (snd out) = Some err
    /\ user (snd out) = user w /\ session (snd out) = session w.

Lemma login_failure email password w :
  failure_frame w (login clock provider email password w).
Proof.
  unfold failure_frame, login. monad. cbn.
  pose proof (loginWithEmail_same_ui clock provider email password
                (with_error None (with_loading true w))) as Hs.
  destruct (loginWithEmail clock provider email password
              (with_error None (with_loading true w))) as [[e|cred] w1];
    cbn in Hs |- *; intros err Herr; [|discriminate].
  injection Herr as ->. destruct Hs as (Hu & Hse & _ & _).
  repeat split; assumption.
Qed.

Lemma signUp_failure email password fullName w :
  failure_frame w (signUp window_origin provider email password fullName w).
Proof.
  unfold failure_frame, signUp. monad. cbn.
  pose proof (signUpWithEmail_same_ui window_origin provider email password
                fullName (with_error None (with_loading true w))) as Hs.
  destruct (signUpWithEmail window_origin provider email password fullName
              (with_error None (with_loading true w))) as [[e|cred] w1];
    cbn in Hs |- *; intros err Herr; [|discriminate].
  injection Herr as ->. destruct Hs as (Hu & Hse & _ & _).
  repeat split; assumption.
Qed.

Lemma logoutHandler_failure w :
  failure_frame w (logoutHandler window_origin provider w).
Proof.
  unfold failure_frame, logoutHandler. monad. cbn.
  pose proof (logout_same_ui window_origin provider
                (with_error None (with_loading true w))) as Hs.
  destruct (logout window_origin provider
              (with_error None (with_loading true w))) as [[e|[]] w1];
    cbn in Hs |- *; intros err Herr; [|discriminate].
  injection Herr as ->. destruct Hs as (Hu & Hse & _ & _).
  repeat split; assumption.
Qed.

Lemma resetPassword_failure email w :
  failure_frame w (resetPassword window_origin provider email w).
Proof.
  unfold failure_frame, resetPassword. monad. cbn.
  pose proof (requestPasswordReset_same_ui window_origin provider email
                (with_error None (with_loading true w))) as Hs.
  destruct (requestPasswordReset window_origin provider email
              (with_error None (with_loading true w))) as [[e|[]] w1];
    cbn in Hs |- *; intros err Herr; [|discriminate].
  injection Herr as ->. destruct Hs as (Hu & Hse & _ & _).
  repeat split; assumption.
Qed.

(** C6. When [login], [signUp], [logout] or [resetPassword] of the
    orchestrator ends in failure, the shared error state holds the error
    it failed with, and the User and Session states are the ones from
    before the operation. *)
Theorem failure_sets_error_keeps_session (w : World) :
  (forall email password,
      failure_frame w (login clock provider email password w))
  /\ (forall email password fullName,
        failure_frame w
          (signUp window_origin provider email password fullName w))
  /\ failure_frame w (logoutHandler window_origin provider w)
  /\ (forall email,
        failure_frame w (resetPassword window_origin provider email w)).
Proof.
  split; [|split; [|split]]; intros.
  - apply login_failure.
  - apply signUp_failure.
  - apply logoutHandler_failure.
  - apply resetPassword_failure.
Qed.

End Orchestrator.

Section Guards.
Variable clock : nat -> N.
Variable provider : list ProviderCall -> Awaited AuthResponse.

(** C5. A [login] whose email or password is empty, whose email does
    not have the shape of an address, or whose identifier the throttle
    refuses (in particular one that is locked) fails, and the log of
    provider requests is what it was: the credential exchange is not
    invoked.  The error is the one of the first guard that fails: required
    fields, invalid email, or rate limit with the remaining time in
    seconds. *)
Theorem login_rejects_before_provider (email password : list N) (w : World) :
  let out := login clock provider email password w in
  let attempt := fst (recordAttempt clock DEFAULT_CONFIG email w) in
  ((email = [] \/ password = [] \/ validateEmail email = false
    \/ allowed attempt = false) ->
     (exists err, fst out = inl err) /\ calls (snd out) = calls w)
  /\ ((email = [] \/ password = []) ->
       fst out = inl required_error /\ calls (snd out) = calls w)
  /\ (email <> [] -> password <> [] -> validateEmail email = false ->
       fst out = inl invalid_email_error /\ calls (snd out) = calls w)
  /\ (email <> [] -> password <> [] -> validateEmail email = true ->
       allowed attempt = false ->
       fst out = inl (rate_limit_error (remaining attempt))
       /\ calls (snd out) = calls w)
  /\ (forall e l,
       email <> [] -> password <> [] -> validateEmail email = true ->
       store w !! email = Some e -> lockedUntil e = Some l ->
       (forall k, (reads w <= k)%nat -> Z.of_N (clock k) < l) ->
       fst out =
         inl (rate_limit_error (l - Z.of_N (clock (S (S (reads w))))))
       /\ calls (snd out) = calls w).
Proof.
  cbv zeta.
  assert (Hrequired :
    email = [] \/ password = [] ->
    fst (login clock provider email password w) = inl required_error
    /\ calls (snd (login clock provider email password w)) = calls w).
  { intros Hempty. unfold login, loginWithEmail. monad.
    destruct email as [|c em]; cbn; [split; reflexivity|].
    destruct password as [|d pw]; cbn; [split; reflexivity|].
    destruct Hempty; discriminate. }
  assert (Hshape :
    email <> [] -> password <> [] -> validateEmail email = false ->
    fst (login clock provider email password w) = inl invalid_email_error
    /\ calls (snd (login clock provider email password w)) = calls w).
  { intros He Hp Hv. unfold login, loginWithEmail. monad. rewrite Hv.
    destruct email as [|c em]; [congruence|].
    destruct password as [|d pw]; [congruence|]. cbn.
    split; reflexivity. }
  assert (Hlimited :
    email <> [] -> password <> [] -> validateEmail email = true ->
    allowed (fst (recordAttempt clock DEFAULT_CONFIG email w)) = false ->
    fst (login clock provider email password w) =
      inl (rate_limit_error
             (remaining (fst (recordAttempt clock DEFAULT_CONFIG email w))))
    /\ calls (snd (login clock provider email password w)) = calls w).
  { intros He Hp Hv Ha. unfold login, loginWithEmail. monad. rewrite Hv.
    destruct email as [|c em]; [congruence|].
    destruct password as [|d pw]; [congruence|].
    cbn -[recordAttempt]. rewrite recordAttempt_ui.
    pose proof (recordAttempt_calls clock DEFAULT_CONFIG (c :: em) w) as Hc.
    destruct (recordAttempt clock DEFAULT_CONFIG (c :: em) w) as [r w1].
    cbn in Ha, Hc |- *. rewrite Ha. cbn. split; [reflexivity | exact Hc]. }
  split; [|split; [|split; [|split]]].
  - intros Hcase.
    destruct (decide (email = [])) as [He|He];
      [destruct Hrequired as [Hr Hc]; [auto|]; rewrite Hr; eauto|].
    destruct (decide (password = [])) as [Hp|Hp];
      [destruct Hrequired as [Hr Hc]; [auto|]; rewrite Hr; eauto|].
    destruct (validateEmail email) eqn:Hv.
    + destruct Hcase as [Hc|[Hc|[Hc|Ha]]]; try congruence.
      destruct (Hlimited He Hp eq_refl Ha) as [Hr Hc]. rewrite Hr. eauto.
    + destruct (Hshape He Hp eq_refl) as [Hr Hc]. rewrite Hr. eauto.
  - exact Hrequired.
  - exact Hshape.
  - exact Hlimited.
  - intros e l He Hp Hv Hs Hl Hbefore.
    assert (Hrun := recordAttempt_locked clock DEFAULT_CONFIG email w e l Hs Hl
                      ltac:(apply Hbefore; lia) ltac:(apply Hbefore; lia)).
    specialize (Hlimited He Hp Hv). rewrite Hrun in Hlimited.
    apply Hlimited. reflexivity.
Qed.

End Guards.

Section Logout.
Variable clock : nat -> N.
Variable window_origin : option string.
Variable provider : list ProviderCall -> Awaited AuthResponse.

(** The error of an awaited provider answer, returned or thrown. *)
Definition answer_error (a : Awaited AuthResponse) : option RawError :=
  match a with
  | Resolved r => r_error r
  | Rejected e => Some e
  end.

Lemma login_success_sets_user email password w :
  fst (login clock provider email password w) = inr tt ->
  user (snd (login clock provider email password w)) <> None
  /\ session (snd (login clock provider email password w)) <> None.
Proof.
  unfold login. monad. cbn.
  destruct (loginWithEmail clock provider email password
              (with_error None (with_loading true w))) as [[e|cred] w1];
    cbn; intros H; [discriminate|]. split; discriminate.
Qed.

Lemma logoutHandler_outcome w :
  match answer_error (provider (SignOut :: calls w)) with
  | None =>
      fst (logoutHandler window_origin provider w) = inr tt
      /\ user (snd (logoutHandler window_origin provider w)) = None
      /\ session (snd (logoutHandler window_origin provider w)) = None
      /\ error (snd (logoutHandler window_origin provider w)) = None
  | Some e =>
      fst (logoutHandler window_origin provider w) = inl (mapSupabaseError e)
      /\ user (snd (logoutHandler window_origin provider w)) = user w
      /\ session (snd (logoutHandler window_origin provider w)) = session w
      /\ error (snd (logoutHandler window_origin provider w))
         = Some (mapSupabaseError e)
  end.
Proof.
  unfold logoutHandler, logout, request_checked, request, answer_error.
  monad. cbn.
  destruct (provider (SignOut :: calls w)) as [r|e]; cbn.
  - destruct (r_error r); cbn; [repeat split|].
    destruct window_origin; cbn; repeat split.
  - repeat split.
Qed.

(** C1, as the code has it.  After a successful [login], [logout]
    clears the User and Session states when the provider's sign-out
    answers without error; when the sign-out answers with an error or
    throws, [logout] fails with that error mapped, stores it in the
    error state, and User and Session stay as the login left them. *)
Theorem logout_after_login (email password : list N) (w : World) :
  fst (login clock provider email password w) = inr tt ->
  let w1 := snd (login clock provider email password w) in
  let out := logoutHandler window_origin provider w1 in
  user w1 <> None /\ session w1 <> None
  /\ match answer_error (provider (SignOut :: calls w1)) with
     | None =>
         fst out = inr tt /\ user (snd out) = None
         /\ session (snd out) = None /\ error (snd out) = None
     | Some e =>
         fst out = inl (mapSupabaseError e)
         /\ user (snd out) = user w1 /\ session (snd out) = session w1
         /\ error (snd out) = Some (mapSupabaseError e)
     end.
Proof.
  intros Hlogin. cbv zeta.
  destruct (login_success_sets_user email password w Hlogin) as [Hu Hs].
  split; [exact Hu|]. split; [exact Hs|].
  apply logoutHandler_outcome.
Qed.

End Logout.

(** *** A run: login succeeds, then the provider refuses the sign-out *)

Local Open Scope string_scope.

Definition alice : SupabaseUser :=
  {| su_id := "u1"; su_email := "a@b.com"; su_full_name := "Alice";
     su_avatar_url := ""; su_provider := "email";
     su_created_at := "2025-01-01T00:00:00Z";
     su_updated_at := "2025-01-01T00:00:00Z" |}.

Definition alice_session : SupabaseSession :=
  {| access_token := "access"; refresh_token := "refresh" |}.

(** Every request is answered with Alice's session, except the sign-out,
    which is answered with an error. *)
Definition signout_fails (log : list ProviderCall) : Awaited AuthResponse :=
  match log with
  | SignOut :: _ =>
      Resolved {| r_error := Some {| err_message := "Network request failed";
                                     err_text := "AuthRetryableFetchError" |};
                  r_user := None; r_session := None |}
  | _ => Resolved {| r_error := None; r_user := Some alice;
                     r_session := Some alice_session |}
  end.

Definition noon : nat -> N := fun _ => 1000%N.

Definition after_login : (AuthError + unit) * World :=
  login noon signout_fails (Js.units "a@b.com") (Js.units "MyPassword123")
    empty_world.

Definition after_logout : (AuthError + unit) * World :=
  logoutHandler (Some "https://camply.app") signout_fails (snd after_login).

(** C1 fails as stated: the login succeeded, the provider's sign-out
    answered with an error, and after [logout] the User and Session states
    are not both null; [logout] itself failed with the mapped error. *)
Lemma logout_error_keeps_session :
  fst after_login = inr tt
  /\ fst after_logout =
       inl {| code := NETWORK_ERROR;
              message := "Network error. Please check your connection.";
              details := None |}
  /\ ~ (user (snd after_logout) = None /\ session (snd after_logout) = None).
Proof.
  split; [vm_compute; reflexivity|]. split; [vm_compute; reflexivity|].
  intros [Hu _]. vm_compute in Hu. discriminate Hu.
Qed.

Lemma logout_after_login_witness :
  fst after_login = inr tt
  /\ (user (snd after_login) <> None /\ session (snd after_login) <> None
      /\ match answer_error
                 (signout_fails (SignOut :: calls (snd after_login))) with
         | None =>
             fst after_logout = inr tt /\ user (snd after_logout) = None
             /\ session (snd after_logout) = None
             /\ error (snd after_logout) = None
         | Some e =>
             fst after_logout = inl (mapSupabaseError e)
             /\ user (snd after_logout) = user (snd after_login)
             /\ session (snd after_logout) = session (snd after_login)
             /\ error (snd after_logout) = Some (mapSupabaseError e)
         end).
Proof.
  split; [vm_compute; reflexivity|].
  apply (logout_after_login noon (Some "https://camply.app") signout_fails
           (Js.units "a@b.com") (Js.units "MyPassword123") empty_world).
  vm_compute; reflexivity.
Defined.

(** Runs of the three guards of [login]. *)
Example login_empty_password :
  login noon signout_fails (Js.units "a@b.com") [] empty_world
  = (inl required_error, with_error (Some required_error) empty_world).
Proof. vm_compute; reflexivity. Qed.

Example login_malformed_email :
  fst (login noon signout_fails (Js.units "a@b") (Js.units "MyPassword123")
         empty_world) = inl invalid_email_error.
Proof. vm_compute; reflexivity. Qed.

Example login_locked :
  let out := login noon signout_fails (Js.units "a@b.com")
               (Js.units "MyPassword123") locked_world in
  fst out =
    inl {| code := RATE_LIMIT_EXCEEDED;
           message := "Too many login attempts. Try again in 1800 seconds.";
           details := Some "Locked for 1800 seconds" |}
  /\ calls (snd out) = [].
Proof. vm_compute; split; reflexivity. Qed.

End AuthFacts.

(* ===================================================================== *)
(** ** Properties of the onboarding gate *)
(* ===================================================================== *)

Module OnboardingFacts.
Import Store Onboarding.
Local Open Scope string_scope.

Ltac store_run :=
  unfold completeOnboarding, getUserProfile, hasCompletedOnboarding,
    select_single, update_eq, insert, request, next_outcome, new_Date,
    bindX, bind, ok, throw, get, modify, ret; cbn.

(** The row of [u] carries the completion flag. *)
Definition completed (db : Db) (u : string) : Prop :=
  exists row, users db !! u = Some row /\ onboarding_completed row = Some true.

(** The row holds the profile fields of the form, and the flag. *)
Definition holds_profile (u : string) (data : OnboardingData) (row : Row) : Prop :=
  r_id row = u
  /\ display_name row = Some (displayName data)
  /\ bio row = Some (data_bio data)
  /\ school row = Some (data_school data)
  /\ program row = Some (data_program data)
  /\ avatar_url row = Some (profilePicture data)
  /\ onboarding_completed row = Some true.

(** The coming request is carried out. *)
Definition next_proceeds (db : Db) : Prop :=
  match schedule db with
  | [] => True
  | o :: _ => o = Proceed
  end.

Section Reads.
Variable toISOString : nat -> string.

Lemma hasCompletedOnboarding_users u db :
  users (snd (hasCompletedOnboarding u db)) = users db.
Proof.
  destruct db as [us sch st]. store_run.
  destruct sch as [|[|e|msg] rest]; cbn;
    try reflexivity; destruct (us !! u); reflexivity.
Qed.

Lemma hasCompletedOnboarding_true u db :
  fst (hasCompletedOnboarding u db) = true -> completed db u.
Proof.
  unfold completed. destruct db as [us sch st]. store_run.
  destruct sch as [|[|e|msg] rest]; cbn; try discriminate;
    destruct (us !! u) as [row|]; cbn; try discriminate;
    destruct (onboarding_completed row) as [[|]|] eqn:Hflag; cbn;
    try discriminate; eauto.
Qed.

Lemma hasCompletedOnboarding_no_row u db :
  users db !! u = None -> fst (hasCompletedOnboarding u db) = false.
Proof.
  destruct db as [us sch st]. cbn. intros Hnone. store_run.
  destruct sch as [|[|e|msg] rest]; cbn; try reflexivity;
    rewrite Hnone; reflexivity.
Qed.

Lemma hasCompletedOnboarding_reads u db :
  next_proceeds db ->
  fst (hasCompletedOnboarding u db)
  = match users db !! u with
    | Some row => default false (onboarding_completed row)
    | None => false
    end.
Proof.
  unfold next_proceeds. destruct db as [us sch st]. store_run.
  destruct sch as [|o rest]; cbn.
  - intros _. destruct (us !! u); reflexivity.
  - intros ->. cbn. destruct (us !! u); reflexivity.
Qed.

Lemma getUserProfile_users u db :
  users (snd (getUserProfile u db)) = users db.
Proof.
  destruct db as [us sch st]. store_run.
  destruct sch as [|[|e|msg] rest]; cbn;
    try reflexivity; try (destruct (us !! u); reflexivity).
  destruct (String.eqb (pg_code e) "PGRST116"); reflexivity.
Qed.

Lemma getUserProfile_reads u db :
  next_proceeds db -> fst (getUserProfile u db) = users db !! u.
Proof.
  unfold next_proceeds. destruct db as [us sch st]. store_run.
  destruct sch as [|o rest]; cbn.
  - intros _. destruct (us !! u); reflexivity.
  - intros ->. cbn. destruct (us !! u); reflexivity.
Qed.

(** What [completeOnboarding] leaves in the table: on success the row of
    [u] holds the form's profile fields and the flag; on failure the table
    is as before; rows of other users are never touched. *)
Lemma completeOnboarding_table u data db :
  (success (fst (completeOnboarding toISOString u data db)) = true ->
   fst (completeOnboarding toISOString u data db) = succeeded
   /\ exists row,
        users (snd (completeOnboarding toISOString u data db)) !! u = Some row
        /\ holds_profile u data row)
  /\ (success (fst (completeOnboarding toISOString u data db)) = false ->
      users (snd (completeOnboarding toISOString u data db)) = users db)
  /\ (forall v, v <> u ->
      users (snd (completeOnboarding toISOString u data db)) !! v
      = users db !! v).
Proof.
  unfold holds_profile. destruct db as [us sch st]. store_run.
  destruct sch as [|[|e1|msg1] [|[|e2|msg2] rest2]]; cbn;
    try destruct (String.eqb (pg_code e1) "PGRST116"); cbn;
    destruct (us !! u) as [old|] eqn:Hu; cbn; try rewrite Hu; cbn;
    (split; [|split]);
    try (intros Hs; discriminate Hs);
    try (intros _; reflexivity);
    try (intros v Hv;
         first [ reflexivity
               | apply lookup_alter_ne; congruence
               | apply lookup_insert_ne; congruence ]);
    intros _; (split; [reflexivity|]); eexists;
    rewrite ?lookup_alter_eq, ?lookup_insert_eq, ?Hu; cbn;
    (split; [reflexivity|]); repeat split.
Qed.

End Reads.

Section Gate.
Variable toISOString : nat -> string.

(** C7, as the code has it.  After a successful [completeOnboarding u
    data], a [getUserProfile u] whose request is carried out returns a
    record with id [u] whose display_name, bio, school, program and
    avatar_url are the displayName, bio, school, program and profilePicture
    of [data], and whose onboarding_completed is true. *)
Theorem profile_round_trip (u : string) (data : OnboardingData) (db : Db) :
  success (fst (completeOnboarding toISOString u data db)) = true ->
  next_proceeds (snd (completeOnboarding toISOString u data db)) ->
  exists row,
    fst (getUserProfile u (snd (completeOnboarding toISOString u data db)))
    = Some row
    /\ holds_profile u data row.
Proof.
  intros Hok Hnext.
  destruct (completeOnboarding_table toISOString u data db) as (Hs & _ & _).
  destruct (Hs Hok) as (_ & row & Hrow & Hprofile).
  exists row. split; [|exact Hprofile].
  rewrite getUserProfile_reads by exact Hnext. exact Hrow.
Qed.

(** How the table changes over a history: a user is completed at the end
    only if completed at the start or by a successful call in between. *)
Lemma completed_origin (cs : list Call) (db : Db) (u : string) :
  completed (snd (run toISOString cs db)) u ->
  completed db u
  \/ exists data,
       In (CompleteOnboarding u data, Completed succeeded)
          (fst (run toISOString cs db)).
Proof.
  revert db. induction cs as [|c cs IH]; intros db; cbn.
  - auto.
  - unfold bind, ret.
    destruct (perform toISOString c db) as [a db1] eqn:Hstep.
    specialize (IH db1).
    destruct (run toISOString cs db1) as [h db2]. cbn in IH |- *.
    intros Hend. destruct (IH Hend) as [Hmid | (data & Hin)].
    2:{ right. exists data. right. exact Hin. }
    destruct c as [v data|v|v]; unfold perform, bind, ret in Hstep.
    + pose proof (completeOnboarding_table toISOString v data db)
        as (Hs & Hf & Hother).
      destruct (completeOnboarding toISOString v data db) as [r db1'].
      injection Hstep as <- <-. cbn in Hs, Hf, Hother.
      destruct (success r) eqn:Hr.
      * destruct (String.eqb_spec v u) as [->|Hne].
        -- right. exists data. left. destruct (Hs eq_refl) as [-> _]. reflexivity.
        -- left. destruct Hmid as (row & Hrow & Hflag).
           exists row. rewrite <- Hother by congruence. auto.
      * left. destruct Hmid as (row & Hrow & Hflag).
        exists row. rewrite <- (Hf eq_refl). auto.
    + pose proof (hasCompletedOnboarding_users v db) as Hu.
      destruct (hasCompletedOnboarding v db) as [b db1'].
      injection Hstep as <- <-. cbn in Hu.
      left. destruct Hmid as (row & Hrow & Hflag). exists row.
      rewrite <- Hu. auto.
    + pose proof (getUserProfile_users v db) as Hu.
      destruct (getUserProfile v db) as [p db1'].
      injection Hstep as <- <-. cbn in Hu.
      left. destruct Hmid as (row & Hrow & Hflag). exists row.
      rewrite <- Hu. auto.
Qed.

(** C8. [hasCompletedOnboarding u] is false when [u] has no profile row.
    Over any history of calls of the service that starts where [u] has no
    row, it is true at the end only if the history has a
    [completeOnboarding u] that succeeded.  What it returns is read from
    the persisted row: the function takes the id and the store only, and
    when its request is carried out the result is the stored flag. *)
Theorem onboarding_flag_origin (u : string) (db : Db) :
  (users db !! u = None -> fst (hasCompletedOnboarding u db) = false)
  /\ (forall cs,
        users db !! u = None ->
        fst (hasCompletedOnboarding u (snd (run toISOString cs db))) = true ->
        exists data,
          In (CompleteOnboarding u data, Completed succeeded)
             (fst (run toISOString cs db)))
  /\ (next_proceeds db ->
      fst (hasCompletedOnboarding u db)
      = match users db !! u with
        | Some row => default false (onboarding_completed row)
        | None => false
        end).
Proof.
  split; [apply hasCompletedOnboarding_no_row|]. split.
  - intros cs Hnone Htrue.
    apply hasCompletedOnboarding_true in Htrue.
    destruct (completed_origin cs db u Htrue) as [(row & Hrow & _) | Hin].
    + congruence.
    + exact Hin.
  - apply hasCompletedOnboarding_reads.
Qed.

End Gate.

(** *** Runs *)

Definition stamp : nat -> string := fun _ => "2025-01-01T00:00:00.000Z".

Definition empty_db : Db := {| users := ∅; schedule := []; stamps := 0 |}.

Definition form (a : AvatarType) (g : option Gender) : OnboardingData :=
  {| displayName := "Ana"; data_bio := "hi"; data_school := "UP";
     data_program := "CS"; profilePicture := "/avatars/1.png";
     avatarType := a; gender := g |}.

Lemma profile_round_trip_witness :
  exists row,
    fst (getUserProfile "u1"
           (snd (completeOnboarding stamp "u1" (form custom None) empty_db)))
    = Some row
    /\ holds_profile "u1" (form custom None) row.
Proof.
  apply (profile_round_trip stamp "u1" (form custom None) empty_db).
  - reflexivity.
  - exact I.
Defined.

(** C7 fails as stated: two forms that differ in [avatarType] and
    [gender] are both saved with success and read back as the same record,
    so the record read back does not determine the fields passed in. *)
Lemma round_trip_drops_avatarType_and_gender :
  success (fst (completeOnboarding stamp "u1" (form custom None) empty_db)) = true
  /\ success (fst (completeOnboarding stamp "u1"
                     (form female_avatar (Some female)) empty_db)) = true
  /\ form custom None <> form female_avatar (Some female)
  /\ fst (getUserProfile "u1"
           (snd (completeOnboarding stamp "u1" (form custom None) empty_db)))
     = fst (getUserProfile "u1"
              (snd (completeOnboarding stamp "u1"
                      (form female_avatar (Some female)) empty_db)))
  /\ fst (getUserProfile "u1"
           (snd (completeOnboarding stamp "u1" (form custom None) empty_db)))
     <> None.
Proof.
  split; [reflexivity|]. split; [reflexivity|]. split; [discriminate|].
  split; [vm_compute; reflexivity | vm_compute; discriminate].
Qed.

Example hasCompletedOnboarding_after_completion :
  fst (run stamp [HasCompletedOnboarding "u1";
                  CompleteOnboarding "u1" (form custom None);
                  HasCompletedOnboarding "u1"] empty_db)
  = [(HasCompletedOnboarding "u1", Flag false);
     (CompleteOnboarding "u1" (form custom None), Completed succeeded);
     (HasCompletedOnboarding "u1", Flag true)].
Proof. vm_compute; reflexivity. Qed.

End OnboardingFacts.

(* ===================================================================== *)
(** ** Properties of listing creation *)
(* ===================================================================== *)

Module ListingsFacts.
Import Store Listings.
Local Open Scope string_scope.

Ltac exec :=
  unfold getUser, select_user, upload, select_category, select_categories,
    insert_item, insert_images, delete_item, request, on_base, next_outcome,
    bindX, bind, ok, throw, get, modify, ret; cbn.

(** No request of the journal is an insert into [item_images]. *)
Definition no_image_insert (j : list (Op * Outcome)) : Prop :=
  forall rows o, ~ In (OpInsertImages rows, o) j.

Lemma no_image_insert_app j1 j2 :
  no_image_insert j1 -> no_image_insert j2 -> no_image_insert (j1 ++ j2).
Proof.
  intros H1 H2 rows o Hin. apply in_app_or in Hin as [Hin | Hin];
    [exact (H1 _ _ Hin) | exact (H2 _ _ Hin)].
Qed.

Lemma no_image_insert_cons op o j :
  (forall rows, op <> OpInsertImages rows) ->
  no_image_insert j -> no_image_insert ((op, o) :: j).
Proof.
  intros Hop Hj rows o' [Heq | Hin].
  - injection Heq as Heq _. exact (Hop _ Heq).
  - exact (Hj _ _ Hin).
Qed.

(** What the row of the item just inserted is after the rollback was
    sent with outcome [o], and what the route answers. *)
Definition rollback_result (o : Outcome) (id : Z) (row : Item)
    (after : Backend) (thrown : string) : Prop :=
  match o with
  | Proceed => items after !! id = None /\ thrown = "Failed to save images"
  | Refuse _ => items after !! id = Some row /\ thrown = "Failed to save images"
  | Throw msg => items after !! id = Some row /\ thrown = msg
  end.

(** When the journal shows a refused insert into [item_images], the
    three latest requests are the insert of the item (carried out), that
    refused insert, and the delete of the item. *)
Definition rolled_back (after : Backend) (thrown : option string) : Prop :=
  forall rows e,
    In (OpInsertImages rows, Refuse e) (journal after) ->
    exists id row o rest msg,
      journal after =
        (OpDeleteItem id, o) :: (OpInsertImages rows, Refuse e)
        :: (OpInsertItem row, Proceed) :: rest
      /\ Forall (fun im => item_id im = id) rows
      /\ thrown = Some msg
      /\ rollback_result o id row after msg.

Section Route.
Variable token_user : string -> option string.
Variable fileName : string -> nat -> string -> string.
Variable publicUrl : string -> string.
Variable stringify : PgError -> string.

Lemma upload_all_frame uid files : forall k b,
  no_image_insert (journal b) ->
  no_image_insert (journal (snd (upload_all fileName publicUrl uid k files b))).
Proof.
  induction files as [|image rest IH]; intros k b Hno; [exact Hno|].
  cbn [upload_all]. destruct b as [[us sch st] cats its imgs nid bk jr].
  cbn in Hno. exec.
  destruct sch as [|[|e|msg] sch]; cbn;
    try (apply no_image_insert_cons; [discriminate | exact Hno]).
  - match goal with
    | |- context [upload_all _ _ _ _ _ ?b1] =>
        specialize (IH (S k) b1);
        destruct (upload_all fileName publicUrl uid (S k) rest b1)
          as [[m|urls] b2]
    end; cbn in IH |- *; apply IH;
      (apply no_image_insert_cons; [discriminate | exact Hno]).
  - match goal with
    | |- context [upload_all _ _ _ _ _ ?b1] =>
        specialize (IH (S k) b1);
        destruct (upload_all fileName publicUrl uid (S k) rest b1)
          as [[m|urls] b2]
    end; cbn in IH |- *; apply IH;
      (apply no_image_insert_cons; [discriminate | exact Hno]).
Qed.

Lemma image_rows_item_id (id : Z) (urls : list string) :
  Forall (fun im => item_id im = id)
    (map (fun url => {| item_id := id; image_url := url |}) urls).
Proof.
  induction urls as [|url urls IH]; cbn; constructor; [reflexivity | exact IH].
Qed.

(** The entry looked for is none of the latest requests and the older
    journal has no insert into [item_images]. *)
Ltac not_in_journal Hno Hin :=
  exfalso; cbn in Hin;
  repeat (destruct Hin as [Hin | Hin]; [discriminate Hin|]);
  exact (Hno _ _ Hin).

(** The latest requests are the delete, the refused insert of the
    images, and the insert of the item. *)
Ltac rollback_case Hno Hin :=
  cbn in Hin; destruct Hin as [Hin | [Hin | Hin]];
  [ discriminate Hin
  | injection Hin as <- <-;
    do 5 eexists; split; [reflexivity|];
    split; [apply image_rows_item_id|];
    split; [reflexivity|]; cbn;
    split; [first [apply lookup_delete_eq | apply lookup_insert_eq] | reflexivity]
  | not_in_journal Hno Hin ].

(** Case analysis on the outcomes of the coming requests and on the
    lookups in the tables, as the run meets them. *)
Ltac crank :=
  repeat (cbn;
          match goal with
          | |- context [match ?x with _ => _ end] =>
              first [ is_var x; destruct x
                    | lazymatch x with _ !! _ => destruct x end ]
          end).

Definition thrown_of {A} (r : string + A) : option string :=
  match r with
  | inl msg => Some msg
  | inr _ => None
  end.

Lemma create_listing_rolled_back uid userSchool t d p c cn s imgs b :
  no_image_insert (journal b) ->
  rolled_back
    (snd (create_listing fileName publicUrl stringify uid userSchool
            t d p c cn s imgs b))
    (thrown_of (fst (create_listing fileName publicUrl stringify uid userSchool
                       t d p c cn s imgs b))).
Proof.
  intros Hno0.
  pose proof (upload_all_frame uid imgs 0%nat b Hno0) as Hno.
  unfold create_listing, bindX, bind.
  destruct (upload_all fileName publicUrl uid 0 imgs b) as [[m|urls] b1];
    cbn in Hno |- *.
  - intros rows e Hin. destruct (Hno _ _ Hin).
  - clear Hno0. destruct b1 as [[us sch st] cats its ims nid bk jr].
    cbn in Hno. exec. crank;
      intros rows e Hin;
      first [ solve [not_in_journal Hno Hin] | rollback_case Hno Hin ].
Qed.

Lemma POST_try_rolled_back req b :
  no_image_insert (journal b) ->
  rolled_back
    (snd (POST_try token_user fileName publicUrl stringify req b))
    (thrown_of (fst (POST_try token_user fileName publicUrl stringify req b))).
Proof.
  intros Hno. unfold POST_try.
  destruct b as [[us sch st] cats its ims nid bk jr]. cbn in Hno.
  destruct req as [auth frm]. cbn [authorization form].
  destruct auth as [authHeader|];
    [|intros rows e Hin; not_in_journal Hno Hin].
  destruct (negb (Js.starts_with "Bearer " authHeader));
    [intros rows e Hin; not_in_journal Hno Hin|].
  exec.
  repeat (cbn -[create_listing];
          match goal with
          | |- context [match ?x with _ => _ end] =>
              lazymatch x with
              | context [match _ with _ => _ end] => fail
              | _ => destruct x
              end
          end);
    first
      [ solve [intros rows e Hin; not_in_journal Hno Hin]
      | apply create_listing_rolled_back; cbn;
        repeat (apply no_image_insert_cons; [discriminate|]); exact Hno ].
Qed.

(** C9, as the code has it.  When in a [POST] the insert of the item was
    carried out and the insert of its images was then refused, the next and
    last request is the delete of the item just inserted; if that delete is
    carried out, the item is not in the table when the route answers 500
    with "Failed to save images"; the answer to the delete is not looked at:
    if the delete is refused the item stays and the route answers the same;
    if it throws, the item stays too. *)
Theorem rollback_after_image_failure (req : Request) (b : Backend)
    (rows : list ItemImage) (e : PgError) :
  no_image_insert (journal b) ->
  In (OpInsertImages rows, Refuse e)
     (journal (snd (POST token_user fileName publicUrl stringify req b))) ->
  exists id row o rest,
    journal (snd (POST token_user fileName publicUrl stringify req b)) =
      (OpDeleteItem id, o) :: (OpInsertImages rows, Refuse e)
      :: (OpInsertItem row, Proceed) :: rest
    /\ Forall (fun im => item_id im = id) rows
    /\ (o = Proceed ->
        items (snd (POST token_user fileName publicUrl stringify req b)) !! id
        = None
        /\ fst (POST token_user fileName publicUrl stringify req b)
           = json_error "Failed to save images" 500)
    /\ (forall e', o = Refuse e' ->
        items (snd (POST token_user fileName publicUrl stringify req b)) !! id
        = Some row
        /\ fst (POST token_user fileName publicUrl stringify req b)
           = json_error "Failed to save images" 500)
    /\ (forall msg, o = Throw msg ->
        items (snd (POST token_user fileName publicUrl stringify req b)) !! id
        = Some row).
Proof.
  intros Hno Hin. pose proof (POST_try_rolled_back req b Hno) as Htry.
  unfold POST, bind, ret in *.
  destruct (POST_try token_user fileName publicUrl stringify req b)
    as [[thrown|response] b1]; cbn in Htry |- *.
  - assert (Hsame : forall r1 r2 : Response,
              (if String.eqb thrown "Unauthorized: No valid session"
               then fun w : Backend => (r1, w) else fun w => (r2, w)) b1
              = (if String.eqb thrown "Unauthorized: No valid session"
                 then r1 else r2, b1)).
    { intros. destruct (String.eqb thrown _); reflexivity. }
    rewrite Hsame in *. cbn in Hin |- *.
    destruct (Htry rows e Hin) as (id & row & o & rest & msg & Hj & Hrows & Hm & Hres).
    injection Hm as <-.
    exists id, row, o, rest. split; [exact Hj|]. split; [exact Hrows|].
    unfold rollback_result in Hres.
    split; [|split].
    + intros ->. destruct Hres as [Hitem ->]. split; [exact Hitem | reflexivity].
    + intros e' ->. destruct Hres as [Hitem ->]. split; [exact Hitem | reflexivity].
    + intros m ->. destruct Hres as [Hitem _]. exact Hitem.
  - destruct (Htry rows e Hin) as (id & row & o & rest & msg & _ & _ & Hm & _).
    discriminate Hm.
Qed.

End Route.

(** *** Runs *)

Definition demo_token_user (token : string) : option string :=
  if String.eqb token "tok" then Some "u1" else None.

Definition demo_fileName (uid : string) (k : nat) (ext : string) : string :=
  uid ++ "/" ++ pretty k ++ "." ++ ext.

Definition demo_publicUrl (name : string) : string := "https://cdn/" ++ name.

Definition demo_stringify (e : PgError) : string := "{}".

Definition seller : Row :=
  {| r_id := "u1"; display_name := Some "Ana"; bio := None;
     school := Some "UP"; program := None; avatar_url := None;
     onboarding_completed := Some true; created_at := None;
     updated_at := None; is_admin := None |}.

Definition denied : PgError :=
  {| pg_code := "42501"; pg_message := "permission denied" |}.

(** A backend with one user, one category and no listing yet. *)
Definition demo_backend (outcomes : list Outcome) : Backend :=
  {| base := {| users := {["u1" := seller]}; schedule := outcomes; stamps := 0 |};
     categories := {["Gadgets" := 3]};
     items := ∅; item_images := []; next_item_id := 1; bucket := [];
     journal := [] |}.

Definition demo_request : Request :=
  {| authorization := Some "Bearer tok";
     form := inr {| title := Some "Phone"; description := Some "as new";
                    price := Some "10.5"; category := Some "gadgets";
                    condition := Some "Good"; status := Some "Available";
                    images := [{| f_name := "front.png";
                                  f_type := "image/png" |}] |} |}.

Definition demo_item : Item :=
  {| i_title := "Phone"; i_description := "as new"; i_price := "10.5";
     i_condition := Text "good"; i_status := Text "available";
     i_user_id := "u1";
     i_category_id := 3; i_school := "UP" |}.

Definition demo_images : list ItemImage :=
  [{| item_id := 1; image_url := "https://cdn/u1/0.png" |}].

Definition demo_POST (outcomes : list Outcome) : Response * Backend :=
  POST demo_token_user demo_fileName demo_publicUrl demo_stringify
    demo_request (demo_backend outcomes).

(** The five requests up to the insert of the item are carried out, the
    insert of the images is refused, and so is the delete. *)
Definition delete_refused : list Outcome :=
  [Proceed; Proceed; Proceed; Proceed; Proceed; Refuse denied; Refuse denied].

(** The same, but the delete is carried out. *)
Definition delete_carried_out : list Outcome :=
  [Proceed; Proceed; Proceed; Proceed; Proceed; Refuse denied].

Example POST_creates_listing :
  code (fst (demo_POST [])) = 200
  /\ items (snd (demo_POST [])) !! 1 = Some demo_item
  /\ item_images (snd (demo_POST [])) = demo_images.
Proof. vm_compute. repeat split. Qed.

(** C9 fails as stated: the insert of the item was carried out, the
    insert of the images was refused, the route answered 500, and the item
    row is in the table, without image rows. *)
Lemma item_left_behind_when_delete_fails :
  journal (snd (demo_POST delete_refused)) =
    [(OpDeleteItem 1, Refuse denied);
     (OpInsertImages demo_images, Refuse denied);
     (OpInsertItem demo_item, Proceed);
     (OpSelectCategory "Gadgets", Proceed);
     (OpUpload "u1/0.png", Proceed);
     (OpSelectUser "u1", Proceed);
     (OpGetUser "tok", Proceed)]
  /\ fst (demo_POST delete_refused) = json_error "Failed to save images" 500
  /\ items (snd (demo_POST delete_refused)) !! 1 = Some demo_item
  /\ item_images (snd (demo_POST delete_refused)) = [].
Proof. vm_compute. repeat split. Qed.

Lemma rollback_after_image_failure_witness :
  exists id row o rest,
    journal (snd (demo_POST delete_carried_out)) =
      (OpDeleteItem id, o) :: (OpInsertImages demo_images, Refuse denied)
      :: (OpInsertItem row, Proceed) :: rest
    /\ Forall (fun im => item_id im = id) demo_images
    /\ (o = Proceed ->
        items (snd (demo_POST delete_carried_out)) !! id = None
        /\ fst (demo_POST delete_carried_out)
           = json_error "Failed to save images" 500)
    /\ (forall e', o = Refuse e' ->
        items (snd (demo_POST delete_carried_out)) !! id = Some row
        /\ fst (demo_POST delete_carried_out)
           = json_error "Failed to save images" 500)
    /\ (forall msg, o = Throw msg ->
        items (snd (demo_POST delete_carried_out)) !! id = Some row).
Proof.
  apply (rollback_after_image_failure demo_token_user demo_fileName
           demo_publicUrl demo_stringify demo_request
           (demo_backend delete_carried_out) demo_images denied).
  - intros rows o Hin. destruct Hin.
  - vm_compute. right. left. reflexivity.
Defined.

Example rollback_removes_item :
  items (snd (demo_POST delete_carried_out)) = ∅
  /\ fst (demo_POST delete_carried_out) = json_error "Failed to save images" 500.
Proof. vm_compute. repeat split. Qed.

End ListingsFacts.

(* ===================================================================== *)
(** ** More properties of the throttle *)
(* ===================================================================== *)

Module RateLimiterMore.
Import Runtime RateLimiter RateLimiterFacts.

Section Windows.
Variable clock : nat -> N.
Variable config : RateLimitConfig.

(** X1. A record that is not locked and whose first attempt is more than
    the window before this call is replaced by a new record with count 1,
    whatever its count was, and the attempt is allowed. *)
Theorem window_restart (identifier : list N) (w : World) (e : Entry) :
  store w !! identifier = Some e ->
  lockedUntil e = None ->
  windowMs config < now_of clock w - firstAttemptTime e ->
  fst (recordAttempt clock config identifier w) = allowed_result
  /\ store (snd (recordAttempt clock config identifier w)) !! identifier
     = Some (fresh_entry (now_of clock w)).
Proof.
  intros He Hl Hlate. run. rewrite He. cbn. rewrite Hl. cbn.
  fold (now_of clock w).
  destruct (Z.gtb_spec (now_of clock w - firstAttemptTime e) (windowMs config));
    [|lia].
  cbn. split; [reflexivity | apply lookup_insert_eq].
Qed.

(** X2. After [reset], the identifier is not locked and its next attempt
    is allowed and counted as the first, whatever record it had, a locked
    one included; the records of the other identifiers are not touched. *)
Theorem reset_unlocks (identifier : list N) (w : World) :
  fst (isLocked clock identifier (snd (reset identifier w))) = false
  /\ fst (recordAttempt clock config identifier (snd (reset identifier w)))
     = allowed_result
  /\ store (snd (recordAttempt clock config identifier (snd (reset identifier w))))
       !! identifier
     = Some (fresh_entry (now_of clock w))
  /\ (forall other, other <> identifier ->
        store (snd (reset identifier w)) !! other = store w !! other).
Proof.
  unfold reset. run. rewrite !lookup_delete_eq. cbn.
  split; [reflexivity|]. split; [reflexivity|].
  split; [apply lookup_insert_eq|].
  intros other Hne. apply lookup_delete_ne. congruence.
Qed.

(** X3. A lockout that has passed: when every reading of the clock from
    this call on is at or after the expiry, and the expiry is later than the
    end of the record's window (as it is whenever the lockout lasts longer
    than the window), the attempt is allowed and the record is replaced by a
    new one with count 1. *)
Theorem expired_lock_restarts (identifier : list N) (w : World) (e : Entry) (l : Z) :
  store w !! identifier = Some e ->
  lockedUntil e = Some l ->
  firstAttemptTime e + windowMs config < l ->
  (forall k, (reads w <= k)%nat -> l <= Z.of_N (clock k)) ->
  fst (recordAttempt clock config identifier w) = allowed_result
  /\ store (snd (recordAttempt clock config identifier w)) !! identifier
     = Some (fresh_entry (now_of clock w)).
Proof.
  intros He Hl Hlong Hpast.
  pose proof (Hpast (reads w) ltac:(lia)) as H0.
  pose proof (Hpast (S (reads w)) ltac:(lia)) as H1.
  pose proof (Hpast (S (S (reads w))) ltac:(lia)) as H2.
  run. rewrite He. cbn. rewrite Hl.
  destruct (Js.truthy_num l); cbn.
  - destruct (Z.ltb_spec (Z.of_N (clock (S (reads w)))) l); [lia|]. cbn.
    destruct (Z.geb_spec (Z.of_N (clock (S (S (reads w))))) l); [|lia]. cbn.
    destruct (Z.gtb_spec (Z.of_N (clock (reads w)) - firstAttemptTime e)
                (windowMs config)); [|lia].
    cbn. split; [reflexivity | apply lookup_insert_eq].
  - destruct (Z.gtb_spec (Z.of_N (clock (reads w)) - firstAttemptTime e)
                (windowMs config)); [|lia].
    cbn. split; [reflexivity | apply lookup_insert_eq].
Qed.

(** X4. [getLockoutTimeRemaining] is never negative, does not change the
    store, and is positive exactly when the identifier has a lockout expiry
    after the reading of the clock, in which case it is the difference. *)
Theorem remaining_time_bounds (identifier : list N) (w : World) :
  0 <= fst (getLockoutTimeRemaining clock identifier w)
  /\ store (snd (getLockoutTimeRemaining clock identifier w)) = store w
  /\ (0 < fst (getLockoutTimeRemaining clock identifier w) <->
      exists e l, store w !! identifier = Some e /\ lockedUntil e = Some l
                  /\ now_of clock w < l)
  /\ (forall e l, store w !! identifier = Some e -> lockedUntil e = Some l ->
      now_of clock w < l ->
      fst (getLockoutTimeRemaining clock identifier w) = l - now_of clock w).
Proof.
  unfold now_of. run.
  destruct (store w !! identifier) as [e|] eqn:He; cbn;
    [destruct (lockedUntil e) as [l|] eqn:Hl; cbn;
     [unfold Js.truthy_num; destruct (Z.eqb_spec l 0) as [Hz|Hnz]; cbn;
      [|destruct (Z.gtb_spec (l - Z.of_N (clock (reads w))) 0) as [Hpos|Hnon];
        cbn]|]|];
    (split; [lia|]); (split; [reflexivity|]); (split; [split|]);
    try (intros (e' & l' & He' & Hl' & Hlt));
    try (intros e' l' He' Hl' Hlt);
    try discriminate;
    try (injection He' as <-; rewrite Hl in Hl'; try discriminate;
         injection Hl' as <-);
    try lia.
  intros _. exists e, l. repeat split; [assumption | lia].
Qed.

Lemma recordAttempt_frame (identifier other : list N) (w : World) :
  other <> identifier ->
  store (snd (recordAttempt clock config identifier w)) !! other
  = store w !! other.
Proof.
  intros Hne. run. AuthFacts.branches;
    rewrite ?lookup_insert_ne, ?lookup_delete_ne by congruence; reflexivity.
Qed.

(** X5. An attempt of one identifier leaves the records of all other
    identifiers as they were. *)
Theorem recordAttempt_other_identifiers (identifier other : list N) (w : World) :
  other <> identifier ->
  store (snd (recordAttempt clock config identifier w)) !! other
  = store w !! other.
Proof. apply recordAttempt_frame. Qed.

(** X6. The hourly sweep keeps exactly the records whose first attempt is
    at most twice the window before the sweep, each as it was. *)
Theorem cleanup_sweeps (identifier : list N) (e : Entry) (w : World) :
  store (snd (cleanup clock config w)) !! identifier = Some e
  <-> store w !! identifier = Some e
      /\ now_of clock w - firstAttemptTime e <= windowMs config * 2.
Proof.
  unfold cleanup, date_now, now_of, bind, modify. cbn.
  rewrite map_lookup_filter_Some. cbn. split; intros [H1 H2]; (split; [exact H1 | lia]).
Qed.

(** *** Histories of limiter calls *)

Inductive LimiterCall : Type :=
| RecordAttempt (identifier : list N)
| IsLocked (identifier : list N)
| GetLockoutTimeRemaining (identifier : list N)
| Reset (identifier : list N)
| ResetAll
| Cleanup.

Definition call (c : LimiterCall) : M unit :=
  match c with
  | RecordAttempt i => bind (recordAttempt clock config i) (fun _ => ret tt)
  | IsLocked i => bind (isLocked clock i) (fun _ => ret tt)
  | GetLockoutTimeRemaining i =>
      bind (getLockoutTimeRemaining clock i) (fun _ => ret tt)
  | Reset i => reset i
  | ResetAll => resetAll
  | Cleanup => cleanup clock config
  end.

Fixpoint calls_in_turn (cs : list LimiterCall) : M unit :=
  match cs with
  | [] => ret tt
  | c :: rest => bind (call c) (fun _ => calls_in_turn rest)
  end.

(** *** A lockout lasts as long as its record *)

Lemma recordAttempt_reads (identifier : list N) (w : World) :
  (reads w <= reads (snd (recordAttempt clock config identifier w)))%nat.
Proof. run. AuthFacts.branches; cbn; lia. Qed.

Lemma isLocked_frame (identifier other : list N) (w : World) :
  other <> identifier ->
  store (snd (isLocked clock identifier w)) !! other = store w !! other.
Proof.
  intros Hne. run. AuthFacts.branches;
    rewrite ?lookup_delete_ne by congruence; reflexivity.
Qed.

Lemma isLocked_reads (identifier : list N) (w : World) :
  (reads w <= reads (snd (isLocked clock identifier w)))%nat.
Proof. run. AuthFacts.branches; cbn; lia. Qed.

Lemma isLocked_locked (identifier : list N) (w : World) (e : Entry) (l : Z) :
  store w !! identifier = Some e ->
  lockedUntil e = Some l ->
  Z.of_N (clock (reads w)) < l ->
  isLocked clock identifier w = (true, with_reads (S (reads w)) w).
Proof.
  intros He Hl Hlt. run. rewrite He. cbn. rewrite Hl.
  rewrite (truthy_future _ _ Hlt). cbn.
  destruct (Z.ltb_spec (Z.of_N (clock (reads w))) l); [reflexivity | lia].
Qed.

Lemma getLockoutTimeRemaining_frame (identifier : list N) (w : World) :
  store (snd (getLockoutTimeRemaining clock identifier w)) = store w
  /\ (reads w <= reads (snd (getLockoutTimeRemaining clock identifier w)))%nat.
Proof. run. AuthFacts.branches; cbn; split; try reflexivity; lia. Qed.

(** A call that is neither [reset identifier] nor [resetAll], and, if it
    is a sweep, comes while the first attempt of the record is at most
    twice the window back, leaves a locked record as it is. *)
Lemma call_keeps_lock (identifier : list N) (e : Entry) (l : Z)
    (c : LimiterCall) (w : World) :
  store w !! identifier = Some e ->
  lockedUntil e = Some l ->
  (forall k, (reads w <= k)%nat -> Z.of_N (clock k) < l) ->
  c <> Reset identifier -> c <> ResetAll ->
  (c = Cleanup ->
   now_of clock w - firstAttemptTime e <= windowMs config * 2) ->
  store (snd (call c w)) !! identifier = Some e
  /\ (reads w <= reads (snd (call c w)))%nat.
Proof.
  intros He Hl Hbefore Hreset Hall Hsweep.
  destruct c as [i|i|i|i| |]; unfold call, bind, ret.
  - pose proof (recordAttempt_reads i w) as Hreads.
    destruct (decide (i = identifier)) as [->|Hne].
    + rewrite (recordAttempt_locked clock config identifier w e l He Hl)
        by (apply Hbefore; lia).
      cbn. split; [exact He | lia].
    + pose proof (recordAttempt_frame i identifier w) as Hframe.
      destruct (recordAttempt clock config i w) as [r w1]. cbn in *.
      split; [|exact Hreads]. rewrite Hframe by congruence. exact He.
  - pose proof (isLocked_reads i w) as Hreads.
    destruct (decide (i = identifier)) as [->|Hne].
    + rewrite (isLocked_locked identifier w e l He Hl)
        by (apply Hbefore; lia).
      cbn. split; [exact He | lia].
    + pose proof (isLocked_frame i identifier w) as Hframe.
      destruct (isLocked clock i w) as [r w1]. cbn in *.
      split; [|exact Hreads]. rewrite Hframe by congruence. exact He.
  - destruct (getLockoutTimeRemaining_frame i w) as [Hstore Hreads].
    destruct (getLockoutTimeRemaining clock i w) as [r w1]. cbn in *.
    split; [|exact Hreads]. rewrite Hstore. exact He.
  - cbn. split; [|lia]. rewrite lookup_delete_ne by congruence. exact He.
  - contradiction Hall. reflexivity.
  - specialize (Hsweep eq_refl). unfold now_of in Hsweep.
    unfold cleanup, date_now, bind, modify. cbn. split; [|lia].
    apply map_lookup_filter_Some. cbn. split; [exact He | lia].
Qed.

(** C3, as the code has it.  An identifier is locked: its record has a
    lockout expiry and every reading of the clock from here on is before
    it.  Then [recordAttempt] is refused and leaves the record, so also its
    attempt count, as it was, after any calls of the limiter (attempts for
    this or for other identifiers, [isLocked], [getLockoutTimeRemaining],
    [reset] of other identifiers, sweeps) that keep the record in the
    store: no [reset] of this identifier, no [resetAll], and sweeps only
    while the first attempt of the record is at most twice the window
    back.  A history is any list of calls, so this holds at every attempt
    made along the way. *)
Theorem locked_while_record_stays (identifier : list N)
    (cs : list LimiterCall) (w : World) (e : Entry) (l : Z) :
  store w !! identifier = Some e ->
  lockedUntil e = Some l ->
  (forall k, (reads w <= k)%nat -> Z.of_N (clock k) < l) ->
  Forall (fun c => c <> Reset identifier /\ c <> ResetAll) cs ->
  (In Cleanup cs ->
   forall k, (reads w <= k)%nat ->
     Z.of_N (clock k) - firstAttemptTime e <= windowMs config * 2) ->
  allowed (fst (recordAttempt clock config identifier
                  (snd (calls_in_turn cs w)))) = false
  /\ store (snd (recordAttempt clock config identifier
                   (snd (calls_in_turn cs w)))) !! identifier = Some e.
Proof.
  revert w. induction cs as [|c cs IH]; intros w He Hl Hbefore Hkeep Hsweep.
  - cbn [calls_in_turn ret snd].
    rewrite (recordAttempt_locked clock config identifier w e l He Hl)
      by (apply Hbefore; lia).
    cbn. split; [reflexivity | exact He].
  - cbn [calls_in_turn]. unfold bind.
    inversion Hkeep as [|c' cs' [Hreset Hall] Hrest]; subst.
    destruct (call_keeps_lock identifier e l c w He Hl Hbefore Hreset Hall)
      as [He1 Hreads].
    { intros ->. apply Hsweep; [left; reflexivity | lia]. }
    destruct (call c w) as [[] w1]. cbn in He1, Hreads. apply IH.
    + exact He1.
    + exact Hl.
    + intros k Hk. apply Hbefore. lia.
    + exact Hrest.
    + intros Hin k Hk. apply Hsweep; [right; exact Hin | lia].
Qed.

(** Every record is either unlocked with a count from 1 to the maximum,
    or locked until a positive time with a count one above the maximum. *)
Definition well_formed (s : gmap (list N) Entry) : Prop :=
  forall i e, s !! i = Some e ->
    (lockedUntil e = None /\ 1 <= attempts e <= maxAttempts config)
    \/ (exists l, lockedUntil e = Some l /\ 0 < l
                  /\ attempts e = maxAttempts config + 1).

Lemma well_formed_subseteq (s s' : gmap (list N) Entry) :
  s' ⊆ s -> well_formed s -> well_formed s'.
Proof.
  intros Hsub Hwf i e Hi. apply (Hwf i e).
  exact (lookup_weaken _ _ _ _ Hi Hsub).
Qed.

Hypothesis max_positive : 1 <= maxAttempts config.
Hypothesis lockout_positive : 0 < lockoutMs config.
Hypothesis clock_monotone : forall k, (clock k <= clock (S k))%N.

Lemma recordAttempt_well_formed (identifier : list N) (w : World) :
  well_formed (store w) ->
  well_formed (store (snd (recordAttempt clock config identifier w))).
Proof.
  intros Hwf i e'.
  destruct (decide (i = identifier)) as [->|Hne];
    [|rewrite recordAttempt_frame by exact Hne; apply Hwf].
  pose proof (clock_monotone (S (reads w))) as Hmono.
  run. destruct (store w !! identifier) as [e|] eqn:He; cbn.
  2:{ rewrite lookup_insert_eq. intros [= <-]. left. cbn. split; [reflexivity | lia]. }
  destruct (Hwf _ _ He) as [[Hl Hatt] | (l & Hl & Hpos & Hatt)]; rewrite Hl; cbn.
  - destruct (_ >? windowMs config); cbn.
    { rewrite lookup_insert_eq. intros [= <-]. left. cbn. split; [reflexivity | lia]. }
    destruct (Z.gtb_spec (attempts e + 1) (maxAttempts config)); cbn;
      rewrite He; cbn; rewrite lookup_insert_eq; intros [= <-]; cbn.
    + right. eexists. split; [reflexivity|]. split; lia.
    + left. split; [reflexivity | lia].
  - assert (Ht : Js.truthy_num l = true).
    { unfold Js.truthy_num. destruct (Z.eqb_spec l 0); [lia | reflexivity]. }
    rewrite Ht. cbn.
    destruct (Z.ltb_spec (Z.of_N (clock (S (reads w)))) l); cbn.
    { rewrite He, Hl, Ht. cbn. rewrite He. intros [= <-].
      right. exists l. auto. }
    destruct (Z.geb_spec (Z.of_N (clock (S (S (reads w))))) l); [|lia]. cbn.
    destruct (_ >? windowMs config); cbn.
    { rewrite lookup_insert_eq. intros [= <-]. left. cbn. split; [reflexivity | lia]. }
    destruct (_ >? maxAttempts config); unfold with_store; cbn;
      rewrite !lookup_delete_eq; discriminate.
Qed.

Lemma call_well_formed (c : LimiterCall) (w : World) :
  well_formed (store w) -> well_formed (store (snd (call c w))).
Proof.
  intros Hwf. destruct c as [i|i|i|i| |]; unfold call, bind, ret.
  - pose proof (recordAttempt_well_formed i w Hwf) as H.
    destruct (recordAttempt clock config i w). exact H.
  - revert Hwf. run. AuthFacts.branches; intros Hwf; try exact Hwf;
      apply (well_formed_subseteq (store w)); [apply delete_subseteq | exact Hwf].
  - revert Hwf. run. AuthFacts.branches; intros Hwf; exact Hwf.
  - apply (well_formed_subseteq (store w)); [apply delete_subseteq | exact Hwf].
  - intros k e Hk. cbn in Hk. rewrite lookup_empty in Hk. discriminate.
  - apply (well_formed_subseteq (store w)); [|exact Hwf].
    unfold cleanup, date_now, bind, modify. cbn. apply map_filter_subseteq.
Qed.

Lemma calls_in_turn_well_formed (cs : list LimiterCall) : forall w,
  well_formed (store w) -> well_formed (store (snd (calls_in_turn cs w))).
Proof.
  induction cs as [|c cs IH]; intros w Hwf; [exact Hwf|].
  cbn [calls_in_turn]. unfold bind.
  pose proof (call_well_formed c w Hwf) as Hstep.
  destruct (call c w) as [[] w1]. apply IH. exact Hstep.
Qed.

(** X7. With a maximum of at least 1, a positive lockout and a clock that
    does not run backwards: after any calls of the limiter's methods on an
    empty store, every record has a count from 1 to the maximum plus one,
    and it carries a lockout expiry exactly when its count is the maximum
    plus one. *)
Theorem count_never_runs_away (cs : list LimiterCall) (w : World)
    (identifier : list N) (e : Entry) :
  store w = ∅ ->
  store (snd (calls_in_turn cs w)) !! identifier = Some e ->
  1 <= attempts e <= maxAttempts config + 1
  /\ (lockedUntil e <> None <-> attempts e = maxAttempts config + 1).
Proof.
  intros Hempty Hi.
  assert (Hwf : well_formed (store w)).
  { rewrite Hempty. intros k x Hk. rewrite lookup_empty in Hk. discriminate. }
  destruct (calls_in_turn_well_formed cs w Hwf _ _ Hi)
    as [[Hl Hatt] | (l & Hl & Hpos & Hatt)]; rewrite Hl.
  - split; [lia|]. split; [congruence | lia].
  - split; [lia|]. split; [intros _; exact Hatt | discriminate].
Qed.

End Windows.

(** *** Runs *)

Definition stale_world : World :=
  with_store
    <[Js.units "a@b.com" := {| attempts := 3; firstAttemptTime := 1000;
                               lockedUntil := None |}]>
    empty_world.

Lemma window_restart_witness :
  fst (recordAttempt (fun _ => 2000000%N) DEFAULT_CONFIG (Js.units "a@b.com")
         stale_world) = allowed_result
  /\ store (snd (recordAttempt (fun _ => 2000000%N) DEFAULT_CONFIG
                   (Js.units "a@b.com") stale_world)) !! Js.units "a@b.com"
     = Some (fresh_entry (now_of (fun _ => 2000000%N) stale_world)).
Proof.
  apply (window_restart (fun _ => 2000000%N) DEFAULT_CONFIG (Js.units "a@b.com")
           stale_world
           {| attempts := 3; firstAttemptTime := 1000; lockedUntil := None |}).
  - reflexivity.
  - reflexivity.
  - vm_compute. reflexivity.
Defined.

Lemma expired_lock_restarts_witness :
  fst (recordAttempt (fun _ => 1801000%N) DEFAULT_CONFIG (Js.units "a@b.com")
         locked_world) = allowed_result
  /\ store (snd (recordAttempt (fun _ => 1801000%N) DEFAULT_CONFIG
                   (Js.units "a@b.com") locked_world)) !! Js.units "a@b.com"
     = Some (fresh_entry (now_of (fun _ => 1801000%N) locked_world)).
Proof.
  apply (expired_lock_restarts (fun _ => 1801000%N) DEFAULT_CONFIG
           (Js.units "a@b.com") locked_world locked_entry 1801000).
  - reflexivity.
  - reflexivity.
  - vm_compute. reflexivity.
  - intros k _. cbn. lia.
Defined.

Lemma recordAttempt_other_identifiers_witness :
  store (snd (recordAttempt (fun _ => 2000%N) DEFAULT_CONFIG
                (Js.units "c@d.com") locked_world)) !! Js.units "a@b.com"
  = store locked_world !! Js.units "a@b.com".
Proof.
  apply (recordAttempt_other_identifiers (fun _ => 2000%N) DEFAULT_CONFIG
           (Js.units "c@d.com") (Js.units "a@b.com") locked_world).
  discriminate.
Defined.

Definition six_attempts : list LimiterCall :=
  repeat (RecordAttempt (Js.units "a@b.com")) 6.

(** Calls of every kind that keep the record of a@b.com. *)
Definition calls_between : list LimiterCall :=
  [RecordAttempt (Js.units "a@b.com"); Cleanup; IsLocked (Js.units "a@b.com");
   RecordAttempt (Js.units "c@d.com"); Reset (Js.units "c@d.com");
   GetLockoutTimeRemaining (Js.units "a@b.com")].

Lemma locked_while_record_stays_witness :
  allowed (fst (recordAttempt (fun _ => 2000%N) DEFAULT_CONFIG
                  (Js.units "a@b.com")
                  (snd (calls_in_turn (fun _ => 2000%N) DEFAULT_CONFIG
                          calls_between locked_world)))) = false
  /\ store (snd (recordAttempt (fun _ => 2000%N) DEFAULT_CONFIG
                   (Js.units "a@b.com")
                   (snd (calls_in_turn (fun _ => 2000%N) DEFAULT_CONFIG
                           calls_between locked_world))))
       !! Js.units "a@b.com" = Some locked_entry.
Proof.
  apply (locked_while_record_stays (fun _ => 2000%N) DEFAULT_CONFIG
           (Js.units "a@b.com") calls_between locked_world locked_entry
           1801000).
  - reflexivity.
  - reflexivity.
  - intros k _. cbn. lia.
  - repeat constructor; discriminate.
  - intros _ k _. cbn. lia.
Defined.

(** Six attempts in the first 14 minutes, then the hourly sweep at minute
    31: readings 0 to 4 are the seconds 0 to 4, reading 5 is minute 14, and
    every later reading is minute 31. *)
Definition sweep_clock (k : nat) : N :=
  match k with
  | 0%nat => 0%N
  | 1%nat => 1000%N
  | 2%nat => 2000%N
  | 3%nat => 3000%N
  | 4%nat => 4000%N
  | 5%nat => 840000%N
  | _ => 1860000%N
  end.

(** The sixth attempt, at minute 14, locks a@b.com until minute 44.  The
    sweep at minute 31 finds the first attempt more than 30 minutes back
    and deletes the record, and the attempt that follows, 13 minutes before
    the expiry, is allowed and counted as the first. *)
Lemma sweep_ends_lockout :
  store (snd (calls_in_turn sweep_clock DEFAULT_CONFIG six_attempts
                empty_world)) !! Js.units "a@b.com"
  = Some {| attempts := 6; firstAttemptTime := 0;
            lockedUntil := Some 2640000 |}
  /\ (forall k, Z.of_N (sweep_clock k) < 2640000)
  /\ fst (recordAttempt sweep_clock DEFAULT_CONFIG (Js.units "a@b.com")
            (snd (calls_in_turn sweep_clock DEFAULT_CONFIG
                    (six_attempts ++ [Cleanup]) empty_world)))
     = allowed_result
  /\ store (snd (recordAttempt sweep_clock DEFAULT_CONFIG (Js.units "a@b.com")
                   (snd (calls_in_turn sweep_clock DEFAULT_CONFIG
                           (six_attempts ++ [Cleanup]) empty_world))))
       !! Js.units "a@b.com"
     = Some (fresh_entry 1860000).
Proof.
  split; [vm_compute; reflexivity|].
  split; [intros k; do 6 (destruct k as [|k]; [cbn; lia|]); cbn; lia|].
  split; vm_compute; reflexivity.
Qed.

Lemma count_never_runs_away_witness :
  1 <= attempts locked_entry <= maxAttempts DEFAULT_CONFIG + 1
  /\ (lockedUntil locked_entry <> None
      <-> attempts locked_entry = maxAttempts DEFAULT_CONFIG + 1).
Proof.
  apply (count_never_runs_away (fun _ => 1000%N) DEFAULT_CONFIG
           ltac:(vm_compute; discriminate) ltac:(reflexivity)
           ltac:(intros k; cbn; lia)
           six_attempts empty_world (Js.units "a@b.com") locked_entry).
  - reflexivity.
  - vm_compute. reflexivity.
Defined.

End RateLimiterMore.

(* ===================================================================== *)
(** ** More properties of the service and of the orchestrator *)
(* ===================================================================== *)

Module AuthMore.
Import Regex RegexFacts Validator Runtime RateLimiter AuthService AuthProvider.
Import RateLimiterFacts AuthFacts.

(** *** The shape of an accepted email *)

Lemma star_class_Forall p w :
  lang (Star (Class p)) w <-> Forall (fun c => p c = true) w.
Proof.
  split.
  - intros H. remember (Star (Class p)) as r eqn:Hr. revert Hr.
    induction H as [| | | | | |r' u v Hu _ Hv IHv]; intros Hr; try discriminate.
    + constructor.
    + injection Hr as ->. apply class_inv in Hu as (c & -> & Hc).
      constructor; [exact Hc | apply IHv; reflexivity].
  - induction 1 as [|c w Hc _ IH]; [constructor|].
    apply (lang_star_cons (Class p) [c] w); [constructor; exact Hc | exact IH].
Qed.

Lemma plus_class_Forall p w :
  lang (Plus (Class p)) w <-> w <> [] /\ Forall (fun c => p c = true) w.
Proof.
  unfold Plus. split.
  - intros H. apply cat_inv in H as (u & v & -> & Hu & Hv).
    apply class_inv in Hu as (c & -> & Hc). apply star_class_Forall in Hv.
    split; [discriminate | constructor; assumption].
  - intros [Hne Hall]. destruct Hall as [|c w Hc Hall]; [congruence|].
    apply (lang_cat (Class p) (Star (Class p)) [c] w);
      [constructor; exact Hc | apply star_class_Forall; exact Hall].
Qed.

(** Neither white space nor [@]. *)
Definition plain (part : list N) : Prop :=
  part <> [] /\ Forall (fun c => not_space_at c = true) part.

(** X8. [validateEmail] accepts exactly the texts [local@domain.tld]
    whose three parts are non-empty and free of white space and of [@]
    (the domain and the tld may contain dots). *)
Theorem validateEmail_shape (email : list N) :
  validateEmail email = true
  <-> exists local domain tld,
        email = local ++ [64%N] ++ domain ++ [46%N] ++ tld
        /\ plain local /\ plain domain /\ plain tld.
Proof.
  unfold validateEmail, test_anchored, emailRegex, plain.
  rewrite accepts_lang. split.
  - intros H.
    apply cat_inv in H as (lo & r1 & -> & Hlo & H).
    apply cat_inv in H as (at_ & r2 & -> & Hat & H).
    apply cat_inv in H as (dom & r3 & -> & Hdom & H).
    apply cat_inv in H as (dot & tl & -> & Hdot & Htl).
    apply class_inv in Hat as (c & -> & Hc). apply N.eqb_eq in Hc as ->.
    apply class_inv in Hdot as (d & -> & Hd). apply N.eqb_eq in Hd as ->.
    apply plus_class_Forall in Hlo, Hdom, Htl.
    exists lo, dom, tl. auto.
  - intros (lo & dom & tl & -> & Hlo & Hdom & Htl).
    apply plus_class_Forall in Hlo, Hdom, Htl.
    apply lang_cat; [exact Hlo|].
    apply (lang_cat _ _ [64%N]); [constructor; reflexivity|].
    apply lang_cat; [exact Hdom|].
    apply (lang_cat _ _ [46%N]); [constructor; reflexivity | exact Htl].
Qed.

(** *** What a successful login leaves behind *)

Section Success.
Variable clock : nat -> N.
Variable window_origin : option string.
Variable provider : list ProviderCall -> Awaited AuthResponse.

Lemma loginWithEmail_inr email password w0 cred w1 :
  loginWithEmail clock provider email password w0 = (inr cred, w1) ->
  exists r su ss,
    provider (SignInWithPassword email password :: calls w0) = Resolved r
    /\ r_error r = None /\ r_user r = Some su /\ r_session r = Some ss
    /\ cred = {| c_user := mapSupabaseUserToUser su;
                 c_accessToken := access_token ss;
                 c_refreshToken := Js.or_string (refresh_token ss) "" |}
    /\ calls w1 = SignInWithPassword email password :: calls w0
    /\ store w1 !! email = None.
Proof.
  unfold loginWithEmail.
  destruct (negb (Js.truthy_units email) || negb (Js.truthy_units password));
    [discriminate|].
  destruct (negb (validateEmail email)); [discriminate|].
  unfold request_checked, request. monad.
  pose proof (recordAttempt_calls clock DEFAULT_CONFIG email w0) as Hc.
  destruct (recordAttempt clock DEFAULT_CONFIG email w0) as [rl wr].
  cbn in Hc. destruct (negb (allowed rl)); [discriminate|]. cbn.
  rewrite Hc.
  destruct (provider (SignInWithPassword email password :: calls w0))
    as [r|err] eqn:Hp; cbn; [|discriminate].
  destruct (r_error r) eqn:He; cbn; [discriminate|].
  destruct (r_user r) as [su|] eqn:Hu; cbn; [|discriminate].
  destruct (r_session r) as [ss|] eqn:Hs; cbn; [|discriminate].
  unfold reset. monad. cbn. intros [= <- <-].
  exists r, su, ss. repeat split; auto. cbn. apply lookup_delete_eq.
Qed.

(** X10. When [login] succeeds, the provider answered this sign-in
    request, the only one sent, with a user and a session and no error; the
    User state is that user mapped, the Session state holds the same user,
    the tokens of the provider's session and an expiry one hour after a
    reading of the clock; the error state is null, loading is false, and the
    throttle has no record for the email any more. *)
Theorem login_success (email password : list N) (w : World) :
  fst (login clock provider email password w) = inr tt ->
  exists r su ss k,
    provider (SignInWithPassword email password :: calls w) = Resolved r
    /\ r_error r = None /\ r_user r = Some su /\ r_session r = Some ss
    /\ user (snd (login clock provider email password w))
       = Some (mapSupabaseUserToUser su)
    /\ session (snd (login clock provider email password w))
       = Some {| s_user := Some (mapSupabaseUserToUser su);
                 accessToken := Some (access_token ss);
                 refreshToken := Some (Js.or_string (refresh_token ss) "");
                 expiresAt := Some (Z.of_N (clock k) + 60 * 60 * 1000) |}
    /\ error (snd (login clock provider email password w)) = None
    /\ loading (snd (login clock provider email password w)) = false
    /\ calls (snd (login clock provider email password w))
       = SignInWithPassword email password :: calls w
    /\ store (snd (login clock provider email password w)) !! email = None.
Proof.
  unfold login. monad. cbn.
  pose proof (loginWithEmail_same_ui clock provider email password
                (with_error None (with_loading true w))) as Hui.
  destruct (loginWithEmail clock provider email password
              (with_error None (with_loading true w))) as [[e|cred] w1] eqn:Hsvc;
    cbn; [discriminate|]. intros _.
  apply loginWithEmail_inr in Hsvc
    as (r & su & ss & Hp & He & Hu & Hs & -> & Hcalls & Hstore).
  destruct Hui as (_ & _ & _ & Herr). cbn in Hp, Hcalls, Herr |- *.
  exists r, su, ss, (reads w1). repeat split; assumption.
Qed.

(** X12. [login], [signUp], [logout] and [resetPassword] end with
    loading false, whether they fail or not, and with the error state null
    when they succeed. *)
Theorem operations_settle (w : World) :
  (forall email password,
      loading (snd (login clock provider email password w)) = false
      /\ (fst (login clock provider email password w) = inr tt ->
          error (snd (login clock provider email password w)) = None))
  /\ (forall email password fullName,
      loading (snd (signUp window_origin provider email password fullName w))
      = false
      /\ (fst (signUp window_origin provider email password fullName w) = inr tt ->
          error (snd (signUp window_origin provider email password fullName w))
          = None))
  /\ (loading (snd (logoutHandler window_origin provider w)) = false
      /\ (fst (logoutHandler window_origin provider w) = inr tt ->
          error (snd (logoutHandler window_origin provider w)) = None))
  /\ (forall email,
      loading (snd (resetPassword window_origin provider email w)) = false
      /\ (fst (resetPassword window_origin provider email w) = inr tt ->
          error (snd (resetPassword window_origin provider email w)) = None)).
Proof.
  split; [|split; [|split]].
  - intros em pw. unfold login. monad. cbn.
    pose proof (loginWithEmail_same_ui clock provider em pw
                  (with_error None (with_loading true w))) as (_ & _ & _ & He).
    destruct (loginWithEmail clock provider em pw
                (with_error None (with_loading true w))) as [[e|cred] w1];
      cbn in He |- *; (split; [reflexivity|]); [discriminate | intros _; exact He].
  - intros em pw fn. unfold signUp. monad. cbn.
    pose proof (signUpWithEmail_same_ui window_origin provider em pw
                  fn (with_error None (with_loading true w)))
      as (_ & _ & _ & He).
    destruct (signUpWithEmail window_origin provider em pw fn
                (with_error None (with_loading true w))) as [[e|cred] w1];
      cbn in He |- *; (split; [reflexivity|]); [discriminate | intros _; exact He].
  - unfold logoutHandler. monad. cbn.
    pose proof (logout_same_ui window_origin provider
                  (with_error None (with_loading true w))) as (_ & _ & _ & He).
    destruct (logout window_origin provider
                (with_error None (with_loading true w))) as [[e|[]] w1];
      cbn in He |- *; (split; [reflexivity|]); [discriminate | intros _; exact He].
  - intros em. unfold resetPassword. monad. cbn.
    pose proof (requestPasswordReset_same_ui window_origin provider em
                  (with_error None (with_loading true w))) as (_ & _ & _ & He).
    destruct (requestPasswordReset window_origin provider em
                (with_error None (with_loading true w))) as [[e|[]] w1];
      cbn in He |- *; (split; [reflexivity|]); [discriminate | intros _; exact He].
Qed.

(** X13. A sign-up that the provider answers without a session, as it
    does while the email address awaits confirmation, does not authenticate:
    whatever the inputs, and whether [signUp] fails or not, the User and
    Session states after it are the ones from before.  (With a session in
    the answer the client calls the listener of [AuthProvider], which sets
    both; see [request].) *)
Theorem signUp_without_session (email password fullName : list N) (w : World) :
  (forall r,
     provider (SignUp email password fullName
                 (default "http://localhost:3000" window_origin
                  ++ "/auth/confirm-email") :: calls w) = Resolved r ->
     r_session r = None) ->
  user (snd (signUp window_origin provider email password fullName w)) = user w
  /\ session (snd (signUp window_origin provider email password fullName w))
     = session w.
Proof.
  intros _. unfold signUp. monad. cbn.
  pose proof (signUpWithEmail_same_ui window_origin provider email password
                fullName (with_error None (with_loading true w)))
    as (Hu & Hs & _ & _).
  destruct (signUpWithEmail window_origin provider email password fullName
              (with_error None (with_loading true w))) as [[e|cred] w1];
    cbn in Hu, Hs |- *; split; assumption.
Qed.

(** *** When the provider is contacted *)

Definition signUp_inputs_ok (email password fullName : list N) : bool :=
  Js.truthy_units email && Js.truthy_units password
  && Js.truthy_units fullName && validateEmail email
  && valid (validatePassword password)
  && (2 <=? Z.of_nat (length (Js.trim fullName))).

(** X14. [signUpWithEmail] sends a request to the provider exactly when
    the three fields are non-empty, the email has the shape of an address,
    the password passes [validatePassword] and the trimmed full name has at
    least 2 code units; then it sends one sign-up request, with the
    confirmation page of the application as redirect target.  Otherwise it
    fails and sends nothing. *)
Theorem signUpWithEmail_request (email password fullName : list N) (w : World) :
  calls (snd (signUpWithEmail window_origin provider email password fullName w))
  = (if signUp_inputs_ok email password fullName
     then [SignUp email password fullName
             (default "http://localhost:3000" window_origin
              ++ "/auth/confirm-email")%string]
     else []) ++ calls w
  /\ (signUp_inputs_ok email password fullName = false ->
      exists err,
        fst (signUpWithEmail window_origin provider email password fullName w)
        = inl err).
Proof.
  unfold signUpWithEmail, signUp_inputs_ok.
  destruct email as [|c em]; [split; cbn; eauto|].
  destruct password as [|d pw]; [split; cbn; eauto|].
  destruct fullName as [|f fn]; [split; cbn; eauto|].
  cbn [Js.truthy_units negb orb andb].
  destruct (validateEmail (c :: em)); cbn [negb andb]; [|split; cbn; eauto].
  destruct (valid (validatePassword (d :: pw))); cbn [negb andb];
    [|split; cbn; eauto].
  destruct (Z.ltb_spec (Z.of_nat (length (Js.trim (f :: fn)))) 2) as [Hs|Hl];
    destruct (Z.leb_spec 2 (Z.of_nat (length (Js.trim (f :: fn))))); try lia.
  - split; cbn; eauto.
  - unfold request_checked, request. monad. cbn -[Js.trim].
    destruct (provider _) as [r|e]; cbn; [destruct (r_error r); cbn|];
      try (split; [reflexivity | discriminate]).
    destruct (r_user r); cbn; split; try reflexivity; discriminate.
Qed.

Definition reset_inputs_ok (email : list N) : bool :=
  Js.truthy_units email && validateEmail email.

(** X15. [requestPasswordReset] sends a request to the provider exactly
    when the email is non-empty and has the shape of an address: one
    reset-email request with the reset page as redirect target.  Otherwise
    it fails with an invalid-email error and sends nothing. *)
Theorem requestPasswordReset_request (email : list N) (w : World) :
  calls (snd (requestPasswordReset window_origin provider email w))
  = (if reset_inputs_ok email
     then [ResetPasswordForEmail email
             (default "" window_origin ++ "/auth/reset-password")%string]
     else []) ++ calls w
  /\ (reset_inputs_ok email = false ->
      exists err,
        fst (requestPasswordReset window_origin provider email w) = inl err
        /\ code err = INVALID_EMAIL).
Proof.
  unfold requestPasswordReset, reset_inputs_ok.
  destruct email as [|c em]; [split; cbn; eauto|].
  cbn [Js.truthy_units negb andb].
  destruct (validateEmail (c :: em)); cbn [negb]; [|split; cbn; eauto].
  unfold request_checked, request. monad. cbn.
  destruct (provider _) as [r|e]; cbn; [destruct (r_error r); cbn|];
    split; try reflexivity; discriminate.
Qed.

(** X16. [logout] of the service, where there is a [window].  When the
    sign-out succeeds, [sb-auth-session] is gone from the session storage,
    whose other keys are kept, and [sb-auth-token] is gone from the local
    storage, which has no key it did not have before.  When the sign-out
    fails, the session storage is as it was and [sb-auth-token] is in the
    local storage exactly if it was there before. *)
Theorem logout_web_storage (origin : string) (w : World) :
  (fst (logout (Some origin) provider w) = inr tt ->
   sessionKeys (snd (logout (Some origin) provider w))
   = sessionKeys w ∖ {["sb-auth-session"%string]}
   /\ ("sb-auth-token"%string
       ∉ localKeys (snd (logout (Some origin) provider w)))
   /\ (localKeys (snd (logout (Some origin) provider w)) ⊆ localKeys w))
  /\ (forall err, fst (logout (Some origin) provider w) = inl err ->
      sessionKeys (snd (logout (Some origin) provider w)) = sessionKeys w
      /\ (("sb-auth-token"%string
           ∈ localKeys (snd (logout (Some origin) provider w)))
          <-> ("sb-auth-token"%string ∈ localKeys w))).
Proof.
  unfold logout, request_checked, request. monad. cbn.
  destruct (provider (SignOut :: calls w)) as [r|e]; cbn;
    [destruct (r_error r); cbn|];
    split; try discriminate; try (intros; split; reflexivity).
  intros _. split; [reflexivity|]. split.
  - apply not_elem_of_difference. right. apply elem_of_singleton. reflexivity.
  - apply subseteq_difference_l. reflexivity.
Qed.

(** *** The text of an error *)

Lemma mapSupabaseError_text (e : RawError) : message (mapSupabaseError e) <> ""%string.
Proof.
  unfold mapSupabaseError.
  repeat match goal with
         | |- context [if Js.includes ?m ?p then _ else _] =>
             destruct (Js.includes m p); [discriminate|]
         end.
  cbn. destruct (err_message e); cbn; [|discriminate].
  destruct (err_text e); cbn; discriminate.
Qed.


(** X9. Every error that [loginWithEmail], [signUpWithEmail], [logout]
    or [requestPasswordReset] throws has a non-empty message, whatever the
    provider returned or threw, an error without any text included. *)
Theorem thrown_errors_have_text (w : World) :
  (forall email password err,
      fst (loginWithEmail clock provider email password w) = inl err ->
      message err <> ""%string)
  /\ (forall email password fullName err,
      fst (signUpWithEmail window_origin provider email password fullName w)
      = inl err ->
      message err <> ""%string)
  /\ (forall err,
      fst (logout window_origin provider w) = inl err ->
      message err <> ""%string)
  /\ (forall email err,
      fst (requestPasswordReset window_origin provider email w) = inl err ->
      message err <> ""%string).
Proof.
  split; [|split; [|split]].
  - intros em pw err. unfold loginWithEmail.
    destruct (_ || _); [intros [= <-]; discriminate|].
    destruct (negb (validateEmail em)); [intros [= <-]; discriminate|].
    unfold request_checked, request. monad.
    destruct (recordAttempt clock DEFAULT_CONFIG em w) as [rl wr].
    destruct (negb (allowed rl)); cbn -[pretty]; [intros [= <-]; discriminate|].
    destruct (provider _) as [r|e]; cbn;
      [destruct (r_error r); cbn;
       [|destruct (r_user r), (r_session r); cbn]|];
      try discriminate; intros [= <-];
      first [apply mapSupabaseError_text | discriminate].
  - intros em pw fn err. unfold signUpWithEmail.
    destruct (_ || _); [intros [= <-]; discriminate|].
    destruct (negb (validateEmail em)); [intros [= <-]; discriminate|].
    destruct (negb (valid (validatePassword pw))).
    { intros [= <-]. cbn.
      destruct (Validator.message (validatePassword pw)) as [[|a m]|]; cbn;
        discriminate. }
    destruct (_ <? 2); [intros [= <-]; discriminate|].
    unfold request_checked, request. monad. cbn.
    destruct (provider _) as [r|e]; cbn;
      [destruct (r_error r); cbn; [|destruct (r_user r); cbn]|];
      try discriminate; intros [= <-];
      first [apply mapSupabaseError_text | discriminate].
  - intros err. unfold logout, request_checked, request. monad. cbn.
    destruct (provider _) as [r|e]; cbn;
      [destruct (r_error r); cbn; [|destruct window_origin; cbn]|];
      try discriminate; intros [= <-];
      first [apply mapSupabaseError_text | discriminate].
  - intros em err. unfold requestPasswordReset.
    destruct (negb (Js.truthy_units em)); [intros [= <-]; discriminate|].
    destruct (negb (validateEmail em)); [intros [= <-]; discriminate|].
    unfold request_checked, request. monad. cbn.
    destruct (provider _) as [r|e]; cbn; [destruct (r_error r); cbn|];
      try discriminate; intros [= <-];
      first [apply mapSupabaseError_text | discriminate].
Qed.

(** *** Logins that the provider refuses are counted *)








End Success.

(** *** Runs *)

Lemma login_success_witness :
  exists r su ss k,
    signout_fails
      (SignInWithPassword (Js.units "a@b.com") (Js.units "MyPassword123")
       :: calls empty_world) = Resolved r
    /\ r_error r = None /\ r_user r = Some su /\ r_session r = Some ss
    /\ user (snd after_login) = Some (mapSupabaseUserToUser su)
    /\ session (snd after_login)
       = Some {| s_user := Some (mapSupabaseUserToUser su);
                 accessToken := Some (access_token ss);
                 refreshToken := Some (Js.or_string (refresh_token ss) "");
                 expiresAt := Some (Z.of_N (noon k) + 60 * 60 * 1000) |}
    /\ error (snd after_login) = None
    /\ loading (snd after_login) = false
    /\ calls (snd after_login)
       = SignInWithPassword (Js.units "a@b.com") (Js.units "MyPassword123")
         :: calls empty_world
    /\ store (snd after_login) !! Js.units "a@b.com" = None.
Proof.
  apply (login_success noon signout_fails (Js.units "a@b.com")
           (Js.units "MyPassword123") empty_world).
  vm_compute. reflexivity.
Defined.

(** The provider answers with the new user and no session: the email
    address is still to be confirmed. *)
Definition confirmation_pending (log : list ProviderCall)
  : Awaited AuthResponse :=
  Resolved {| r_error := None; r_user := Some alice; r_session := None |}.

Lemma signUp_without_session_witness :
  user (snd (signUp None confirmation_pending (Js.units "a@b.com")
               (Js.units "MyPassword123") (Js.units "Alice") empty_world))
  = user empty_world
  /\ session (snd (signUp None confirmation_pending (Js.units "a@b.com")
                    (Js.units "MyPassword123") (Js.units "Alice") empty_world))
     = session empty_world.
Proof.
  apply (signUp_without_session None confirmation_pending (Js.units "a@b.com")
           (Js.units "MyPassword123") (Js.units "Alice") empty_world).
  intros r [= <-]. reflexivity.
Defined.



End AuthMore.

(* ===================================================================== *)
(** ** More properties of the onboarding gate *)
(* ===================================================================== *)

Module OnboardingMore.
Import Store Onboarding Gate OnboardingFacts.
Local Open Scope string_scope.

Ltac gate_run :=
  unfold checkOnboardingAndRedirect, requireAdminAccess,
    completeOnboarding, getUserProfile, hasCompletedOnboarding,
    select_single, update_eq, insert, request, next_outcome, new_Date,
    bindX, bind, ok, throw, get, modify, ret; cbn.

(** The row of [u] says that [u] is an admin. *)
Definition admin (db : Db) (u : string) : Prop :=
  exists row, users db !! u = Some row /\ is_admin row = Some true.

Section Profiles.
Variable toISOString : nat -> string.

(** What [completeOnboarding] does to the columns it does not name. *)
Lemma completeOnboarding_columns u data db row' :
  users (snd (completeOnboarding toISOString u data db)) !! u = Some row' ->
  match users db !! u with
  | Some old => created_at row' = created_at old /\ is_admin row' = is_admin old
  | None => is_admin row' = None
  end.
Proof.
  destruct db as [us sch st]. store_run.
  destruct sch as [|[|e1|m1] [|[|e2|m2] rest2]]; cbn;
    try destruct (String.eqb (pg_code e1) "PGRST116"); cbn;
    destruct (us !! u) as [old|] eqn:Hu; cbn; try rewrite Hu; cbn;
    rewrite ?lookup_alter_eq, ?lookup_insert_eq, ?Hu; cbn;
    intros [= <-]; cbn; auto.
Qed.

(** X17. The completion flag does not revert: a user who is completed
    stays completed over any history of calls of the onboarding service,
    whatever requests fail. *)
Theorem onboarding_flag_monotone (cs : list Call) (db : Db) (u : string) :
  completed db u -> completed (snd (run toISOString cs db)) u.
Proof.
  revert db. induction cs as [|c cs IH]; intros db Hdone; [exact Hdone|].
  cbn [run]. unfold bind, ret.
  destruct (perform toISOString c db) as [a db1] eqn:Hstep.
  specialize (IH db1). destruct (run toISOString cs db1) as [h db2].
  cbn in IH |- *. apply IH. clear IH.
  destruct Hdone as (row & Hrow & Hflag).
  destruct c as [v data|v|v]; unfold perform, bind, ret in Hstep.
  - pose proof (completeOnboarding_table toISOString v data db)
      as (Hs & Hf & Hother).
    destruct (completeOnboarding toISOString v data db) as [r db1'].
    injection Hstep as <- <-. cbn in Hs, Hf, Hother.
    destruct (String.eqb_spec v u) as [->|Hne].
    + destruct (success r) eqn:Hr.
      * destruct (Hs eq_refl) as (_ & row' & Hrow' & Hp).
        exists row'. split; [exact Hrow' | apply Hp].
      * exists row. rewrite (Hf eq_refl). auto.
    + exists row. rewrite Hother by congruence. auto.
  - pose proof (hasCompletedOnboarding_users v db) as Hu.
    destruct (hasCompletedOnboarding v db) as [b db1'].
    injection Hstep as <- <-. cbn in Hu. exists row. rewrite Hu. auto.
  - pose proof (getUserProfile_users v db) as Hu.
    destruct (getUserProfile v db) as [p db1'].
    injection Hstep as <- <-. cbn in Hu. exists row. rewrite Hu. auto.
Qed.

(** X18. [completeOnboarding] writes all or nothing: when it reports
    failure, the table is as it was; in every case the rows of all other
    users are as they were. *)
Theorem completeOnboarding_all_or_nothing (u : string) (data : OnboardingData)
    (db : Db) :
  (success (fst (completeOnboarding toISOString u data db)) = false ->
   users (snd (completeOnboarding toISOString u data db)) = users db)
  /\ (forall v, v <> u ->
      users (snd (completeOnboarding toISOString u data db)) !! v
      = users db !! v).
Proof.
  destruct (completeOnboarding_table toISOString u data db) as (_ & Hf & Ho).
  split; assumption.
Qed.


Lemma admin_origin (cs : list Call) : forall db u,
  admin (snd (run toISOString cs db)) u -> admin db u.
Proof.
  induction cs as [|c cs IH]; intros db u; [auto|].
  cbn [run]. unfold bind, ret.
  destruct (perform toISOString c db) as [a db1] eqn:Hstep.
  specialize (IH db1 u). destruct (run toISOString cs db1) as [h db2].
  cbn in IH |- *. intros Hend. specialize (IH Hend). clear Hend.
  destruct IH as (row & Hrow & Hadm).
  destruct c as [v data|v|v]; unfold perform, bind, ret in Hstep.
  - pose proof (completeOnboarding_table toISOString v data db)
      as (_ & _ & Hother).
    pose proof (completeOnboarding_columns v data db) as Hcols.
    destruct (completeOnboarding toISOString v data db) as [r db1'].
    injection Hstep as <- <-. cbn in Hother, Hcols.
    destruct (String.eqb_spec v u) as [->|Hne].
    + specialize (Hcols row Hrow).
      destruct (users db !! u) as [old|] eqn:Hold.
      * exists old. split; [exact Hold | destruct Hcols; congruence].
      * congruence.
    + exists row. rewrite <- Hother by congruence. auto.
  - pose proof (hasCompletedOnboarding_users v db) as Hu.
    destruct (hasCompletedOnboarding v db) as [b db1'].
    injection Hstep as <- <-. cbn in Hu. exists row. rewrite <- Hu. auto.
  - pose proof (getUserProfile_users v db) as Hu.
    destruct (getUserProfile v db) as [p db1'].
    injection Hstep as <- <-. cbn in Hu. exists row. rewrite <- Hu. auto.
Qed.

(** X20. Onboarding never makes an admin: when [requireAdminAccess u] is
    true after any history of calls of the onboarding service, the row of
    [u] had [is_admin] true before that history. *)
Theorem onboarding_never_grants_admin (cs : list Call) (db : Db) (u : string)
    (configured : bool) :
  fst (requireAdminAccess configured u (snd (run toISOString cs db))) = true ->
  admin db u.
Proof.
  intros Htrue. apply (admin_origin cs). revert Htrue.
  generalize (snd (run toISOString cs db)). intros [us sch st].
  unfold admin. gate_run. destruct configured; cbn; [|discriminate].
  destruct sch as [|[|e|m] rest]; cbn; try discriminate;
    destruct (us !! u) as [row|]; cbn; try discriminate;
    destruct (is_admin row) as [[|]|] eqn:Ha; try discriminate; eauto.
Qed.

(** X21. The gate of the OAuth callback.  While the session is being
    exchanged or the auth state is loading it pushes nothing and sends no
    request; without a user it pushes "/"; for a user it pushes "/home" or
    "/onboarding": "/home" only if the stored flag of that user is true,
    "/home" whenever that flag is true and the read is carried out, and
    "/onboarding" whenever the read fails. *)
Theorem callback_gate (exchangingSession authLoading : bool)
    (user : option string) (db : Db) :
  (exchangingSession || authLoading = true ->
   checkOnboardingAndRedirect exchangingSession authLoading user db = (None, db))
  /\ (exchangingSession || authLoading = false -> user = None ->
      checkOnboardingAndRedirect exchangingSession authLoading user db
      = (Some "/", db))
  /\ (forall u, exchangingSession || authLoading = false -> user = Some u ->
      let route :=
        fst (checkOnboardingAndRedirect exchangingSession authLoading user db) in
      (route = Some "/home" \/ route = Some "/onboarding")
      /\ (route = Some "/home" -> completed db u)
      /\ (completed db u -> next_proceeds db -> route = Some "/home")
      /\ (~ next_proceeds db -> route = Some "/onboarding")).
Proof.
  unfold checkOnboardingAndRedirect.
  split; [intros ->; reflexivity|]. split; [intros -> ->; reflexivity|].
  intros u -> ->. cbv zeta. unfold bind, ret.
  pose proof (hasCompletedOnboarding_true u db) as Htrue.
  pose proof (hasCompletedOnboarding_reads u db) as Hread.
  assert (Hfail : ~ next_proceeds db -> fst (hasCompletedOnboarding u db) = false).
  { clear. unfold next_proceeds. destruct db as [us sch st]. gate_run.
    destruct sch as [|[|e|m] rest]; cbn; intros H; try reflexivity;
      exfalso; apply H; auto. }
  destruct (hasCompletedOnboarding u db) as [[|] db1]; cbn in *.
  - split; [auto|]. split; [auto|]. split; [auto|].
    intros Hn. specialize (Hfail Hn). discriminate.
  - split; [auto|]. split; [discriminate|]. split; [|auto].
    intros (row & Hrow & Hflag) Hnext. specialize (Hread Hnext).
    rewrite Hrow, Hflag in Hread. discriminate.
Qed.

End Profiles.

(** *** Runs *)

Definition onboarded_db : Db :=
  snd (completeOnboarding stamp "u1" (form custom None) empty_db).

Lemma onboarding_flag_monotone_witness :
  completed
    (snd (run stamp
            [CompleteOnboarding "u1" (form female_avatar (Some female));
             HasCompletedOnboarding "u1"]
            {| users := users onboarded_db;
               schedule := [Refuse no_rows; Proceed];
               stamps := 2 |}))
    "u1".
Proof.
  apply (onboarding_flag_monotone stamp).
  eexists. split; [vm_compute; reflexivity | reflexivity].
Defined.


Definition admin_db : Db :=
  {| users :=
       {["u9" := {| r_id := "u9"; display_name := None; bio := None;
                    school := None; program := None; avatar_url := None;
                    onboarding_completed := None; created_at := None;
                    updated_at := None; is_admin := Some true |}]};
     schedule := []; stamps := 0 |}.

Lemma onboarding_never_grants_admin_witness : admin admin_db "u9".
Proof.
  apply (onboarding_never_grants_admin stamp
           [CompleteOnboarding "u9" (form custom None)] admin_db "u9" true).
  vm_compute. reflexivity.
Defined.

End OnboardingMore.

(* ===================================================================== *)
(** ** More properties of listing creation *)
(* ===================================================================== *)

Module ListingsMore.
Import Store Listings ListingsFacts.
Local Open Scope string_scope.

(** *** The extension of an image name *)

Fixpoint has_dot (s : string) : bool :=
  match s with
  | EmptyString => false
  | String c rest => Ascii.eqb c "."%char || has_dot rest
  end.

Lemma append_String (c : ascii) (a b : string) :
  (String c a ++ b = String c (a ++ b))%string.
Proof. reflexivity. Qed.

Lemma append_empty (b : string) : ("" ++ b = b)%string.
Proof. reflexivity. Qed.

Lemma append_assoc (a b c : string) :
  ((a ++ b) ++ c = a ++ (b ++ c))%string.
Proof.
  induction a as [|d a IH]; [reflexivity|].
  rewrite !append_String, IH. reflexivity.
Qed.

Lemma has_dot_app (a b : string) :
  has_dot (a ++ b) = has_dot a || has_dot b.
Proof.
  induction a as [|c a IH]; [reflexivity|].
  rewrite append_String. cbn. rewrite IH. apply orb_assoc.
Qed.

Lemma append_cons_assoc (pre : string) (c : ascii) (rest : string) :
  (pre ++ String c rest = (pre ++ String c EmptyString) ++ rest)%string.
Proof.
  induction pre as [|d pre IH]; [reflexivity|].
  rewrite !append_String, IH. reflexivity.
Qed.

Lemma after_last_dot_spec (name : string) : forall pre,
  has_dot pre = false ->
  has_dot (after_last_dot name (pre ++ name)) = false
  /\ exists front, (pre ++ name = front ++ after_last_dot name (pre ++ name))%string.
Proof.
  induction name as [|c rest IH]; intros pre Hpre; cbn [after_last_dot].
  - split; [rewrite has_dot_app, Hpre; reflexivity | exists ""; reflexivity].
  - destruct (Ascii.eqb c ".") eqn:Hc.
    + destruct (IH "" eq_refl) as [Hno (front & Hfront)].
      rewrite append_empty in Hno, Hfront.
      split; [exact Hno|].
      exists (pre ++ String c front).
      rewrite (append_cons_assoc pre c rest), (append_cons_assoc pre c front).
      rewrite (append_assoc _ front). rewrite <- Hfront. reflexivity.
    + rewrite append_cons_assoc.
      apply IH. rewrite has_dot_app, Hpre. cbn. rewrite Hc. reflexivity.
Qed.

(** X22. The extension taken from an image name has no dot, and the name
    ends with it; a name without a dot is its own extension. *)
Theorem fileExt_has_no_dot (name : string) :
  has_dot (fileExt name) = false
  /\ (exists front, name = (front ++ fileExt name)%string)
  /\ (has_dot name = false -> fileExt name = name).
Proof.
  unfold fileExt.
  destruct (after_last_dot_spec name "" eq_refl) as [Hno Hfront].
  rewrite append_empty in Hno, Hfront. split; [exact Hno|]. split; [exact Hfront|].
  assert (Hkeep : forall n acc, has_dot n = false -> after_last_dot n acc = acc).
  { induction n as [|c r IH]; intros acc Hn; cbn in *; [reflexivity|].
    apply orb_false_iff in Hn as [Hc Hr]. rewrite Hc. apply IH. exact Hr. }
  apply Hkeep.
Qed.

(** *** What a request can change *)

(** From [b] to [b']: the users and the categories are the same, the
    bucket got at most [n] new objects and lost none, [item_images] got rows
    appended, and no row of [items] changed but the one with the next id. *)
Definition effect (n : nat) (b b' : Backend) : Prop :=
  users (base b') = users (base b)
  /\ categories b' = categories b
  /\ (exists added, (bucket b' = added ++ bucket b)%list /\ (length added <= n)%nat)
  /\ (exists added, (item_images b' = item_images b ++ added)%list)
  /\ (forall id, id <> next_item_id b -> items b' !! id = items b !! id).

(** The tables of the listings and the bucket are untouched. *)
Definition untouched (b b' : Backend) : Prop :=
  items b' = items b /\ item_images b' = item_images b
  /\ next_item_id b' = next_item_id b /\ bucket b' = bucket b
  /\ users (base b') = users (base b) /\ categories b' = categories b.

Lemma untouched_effect n b b' : untouched b b' -> effect n b b'.
Proof.
  intros (Hi & Him & Hn & Hb & Hu & Hc). unfold effect.
  rewrite Hi, Him, Hb, Hu, Hc. repeat split.
  - exists []. split; [reflexivity | cbn; lia].
  - exists []. rewrite app_nil_r. reflexivity.
Qed.

Section Route.
Variable token_user : string -> option string.
Variable fileName : string -> nat -> string -> string.
Variable publicUrl : string -> string.
Variable stringify : PgError -> string.

(** The uploads touch the bucket only: one object per image uploaded. *)
Lemma upload_all_effect uid files : forall k b,
  items (snd (upload_all fileName publicUrl uid k files b)) = items b
  /\ item_images (snd (upload_all fileName publicUrl uid k files b))
     = item_images b
  /\ next_item_id (snd (upload_all fileName publicUrl uid k files b))
     = next_item_id b
  /\ users (base (snd (upload_all fileName publicUrl uid k files b)))
     = users (base b)
  /\ categories (snd (upload_all fileName publicUrl uid k files b))
     = categories b
  /\ (exists added,
        (bucket (snd (upload_all fileName publicUrl uid k files b))
         = added ++ bucket b)%list
        /\ (length added <= length files)%nat
        /\ (forall urls,
              fst (upload_all fileName publicUrl uid k files b) = inr urls ->
              length added = length files /\ length urls = length files)).
Proof.
  induction files as [|image rest IH]; intros k b.
  - cbn. repeat split. exists []. split; [reflexivity|]. split; [cbn; lia|].
    intros urls [= <-]. split; reflexivity.
  - cbn [upload_all]. destruct b as [[us sch st] cats its ims nid bk jr]. exec.
    assert (Hstop : forall msg : string,
      exists added : list string,
        (bk = added ++ bk)%list
        /\ (length added <= S (length rest))%nat
        /\ (forall urls : list string,
              @inl string (list string) msg = inr urls ->
              length added = S (length rest)
              /\ length urls = S (length rest))).
    { intros msg. exists []. split; [reflexivity|].
      split; [cbn; lia | discriminate]. }
    destruct sch as [|[|e|m] sch]; cbn;
      try (do 5 (split; [reflexivity|]); apply Hstop);
      match goal with
      | |- context [upload_all _ _ _ _ _ ?b1] =>
          specialize (IH (S k) b1);
          destruct (upload_all fileName publicUrl uid (S k) rest b1)
            as [[m'|urls] b2]
      end; cbn in IH |- *;
      destruct IH as (Hi & Him & Hn & Hu & Hc & added & Hb & Hlen & Hok);
      (do 5 (split; [assumption|]));
      exists (added ++ [fileName uid k (fileExt (f_name image))])%list;
      rewrite Hb, <- app_assoc, length_app; cbn;
      (split; [reflexivity|]); (split; [lia|]);
      try discriminate;
      intros urls' [= <-]; destruct (Hok urls eq_refl); cbn; lia.
Qed.

(** As [crank], keeping the equation of each lookup. *)
Ltac crank_eq :=
  repeat (cbn;
          match goal with
          | |- context [match ?x with _ => _ end] =>
              first [ is_var x; destruct x
                    | lazymatch x with _ !! _ => destruct x eqn:? end ]
          end).

Ltac effect_leaf added Hlen :=
  unfold effect; cbn;
  (split; [reflexivity|]); (split; [reflexivity|]);
  (split; [exists added; split; [reflexivity | exact Hlen]|]);
  (split; [first [ exists []; rewrite app_nil_r; reflexivity
                 | eexists; reflexivity ]|]);
  intros id Hne; rewrite ?lookup_delete_ne, ?lookup_insert_ne by congruence;
  reflexivity.

Lemma create_listing_effect uid userSchool t d p c cn s imgs b :
  effect (length imgs) b
    (snd (create_listing fileName publicUrl stringify uid userSchool
            t d p c cn s imgs b)).
Proof.
  pose proof (upload_all_effect uid imgs 0%nat b)
    as (Hi & Him & Hn & Hu & Hc & added & Hb & Hlen & _).
  unfold create_listing, bindX, bind.
  destruct (upload_all fileName publicUrl uid 0 imgs b) as [[m|urls] b1];
    destruct b1 as [[us1 sch1 st1] cats1 its1 ims1 nid1 bk1 jr1];
    cbn in Hi, Him, Hn, Hu, Hc, Hb; subst us1 cats1 its1 ims1 nid1 bk1.
  - cbn. effect_leaf added Hlen.
  - exec. crank_eq; effect_leaf added Hlen.
Qed.

(** What [create_listing] did when it answers. *)
Lemma create_listing_success uid userSchool t d p c cn s imgs b resp :
  fst (create_listing fileName publicUrl stringify uid userSchool
         t d p c cn s imgs b) = inr resp ->
  exists urls cid,
    length urls = length imgs
    /\ categories b !! to_text (mapped categoryNameMap c) = Some cid
    /\ resp = {| code := 200;
                 body := SuccessBody
                   {| l_id := next_item_id b; l_title := t;
                      l_description := d; l_price := p; l_category := c;
                      l_condition := cn; l_status := s; l_userId := uid;
                      l_images := urls |} |}
    /\ items (snd (create_listing fileName publicUrl stringify uid userSchool
                     t d p c cn s imgs b))
       = <[next_item_id b :=
             {| i_title := t; i_description := d; i_price := p;
                i_condition := mapped conditionMap cn;
                i_status := mapped statusMap s; i_user_id := uid;
                i_category_id := cid; i_school := userSchool |}]> (items b)
    /\ (item_images (snd (create_listing fileName publicUrl stringify uid
                            userSchool t d p c cn s imgs b))
        = item_images b
          ++ map (fun url => {| item_id := next_item_id b; image_url := url |})
               urls)%list
    /\ next_item_id (snd (create_listing fileName publicUrl stringify uid
                            userSchool t d p c cn s imgs b))
       = next_item_id b + 1.
Proof.
  pose proof (upload_all_effect uid imgs 0%nat b)
    as (Hi & Him & Hn & Hu & Hc & added & Hb & Hlen & Hok).
  unfold create_listing, bindX, bind.
  destruct (upload_all fileName publicUrl uid 0 imgs b) as [[m|urls] b1];
    destruct b1 as [[us1 sch1 st1] cats1 its1 ims1 nid1 bk1 jr1];
    cbn in Hi, Him, Hn, Hu, Hc, Hb, Hok; subst us1 cats1 its1 ims1 nid1 bk1.
  - cbn. discriminate.
  - destruct (Hok urls eq_refl) as [_ Hurls].
    exec. crank_eq; try discriminate;
      intros [= <-]; eexists urls, _; repeat split; try eassumption.
Qed.

(** The requests of the uploads are added to the journal in front. *)
Lemma upload_all_journal uid files : forall k b,
  exists later,
    (journal (snd (upload_all fileName publicUrl uid k files b))
     = later ++ journal b)%list.
Proof.
  induction files as [|image rest IH]; intros k b.
  - exists []. reflexivity.
  - cbn [upload_all]. destruct b as [[us sch st] cats its ims nid bk jr]. exec.
    destruct sch as [|[|e|m] sch]; cbn;
      try (eexists [_]; reflexivity);
      match goal with
      | |- context [upload_all _ _ _ _ _ ?b1] =>
          destruct (IH (S k) b1) as [later Hj];
          destruct (upload_all fileName publicUrl uid (S k) rest b1)
            as [[m'|urls] b2]
      end; cbn in Hj |- *; rewrite Hj; eexists (later ++ [_])%list;
      rewrite <- app_assoc; reflexivity.
Qed.

Lemma create_listing_journal uid userSchool t d p c cn s imgs b :
  exists later,
    (journal (snd (create_listing fileName publicUrl stringify uid userSchool
                     t d p c cn s imgs b))
     = later ++ journal b)%list.
Proof.
  destruct (upload_all_journal uid imgs 0%nat b) as [later Hj].
  unfold create_listing, bindX, bind.
  destruct (upload_all fileName publicUrl uid 0 imgs b) as [[m|urls] b1];
    destruct b1 as [[us1 sch1 st1] cats1 its1 ims1 nid1 bk1 jr1];
    cbn in Hj.
  - exists later. exact Hj.
  - exec. crank_eq; cbn; rewrite Hj; eexists; rewrite ?app_comm_cons;
      reflexivity.
Qed.

Lemma effect_after_untouched n b b1 b2 :
  untouched b b1 -> effect n b1 b2 -> effect n b b2.
Proof.
  intros (Hi & Him & Hn & Hb & Hu & Hc) He. unfold effect in *.
  rewrite Hi, Him, Hn, Hb, Hu, Hc in He. exact He.
Qed.

(** What [POST] makes of the outcome of its [try]. *)
Lemma POST_backend req b :
  snd (POST token_user fileName publicUrl stringify req b)
  = snd (POST_try token_user fileName publicUrl stringify req b).
Proof.
  unfold POST, bind.
  destruct (POST_try token_user fileName publicUrl stringify req b)
    as [[m|r] b']; cbn; [|reflexivity].
  destruct (String.eqb m "Unauthorized: No valid session"); reflexivity.
Qed.

Lemma POST_answer req b :
  fst (POST token_user fileName publicUrl stringify req b)
  = match fst (POST_try token_user fileName publicUrl stringify req b) with
    | inr response => response
    | inl message =>
        if String.eqb message "Unauthorized: No valid session"
        then json_error "Unauthorized" 401
        else json_error message 500
    end.
Proof.
  unfold POST, bind.
  destruct (POST_try token_user fileName publicUrl stringify req b)
    as [[m|r] b']; cbn; [|reflexivity].
  destruct (String.eqb m "Unauthorized: No valid session"); reflexivity.
Qed.

(** The checks a request has passed when the route starts to create the
    listing. *)
Definition accepted (req : Request) (b : Backend) (uid userSchool : string)
    (t d p c cn s : string) (imgs : list File) : Prop :=
  exists h row,
    authorization req = Some h
    /\ Js.starts_with "Bearer " h = true
    /\ token_user (slice 7 h) = Some uid
    /\ users (base b) !! uid = Some row
    /\ school row = Some userSchool
    /\ Js.truthy_string userSchool = true
    /\ form req = inr {| title := Some t; description := Some d;
                         price := Some p; category := Some c;
                         condition := Some cn; status := Some s;
                         images := imgs |}
    /\ Forall (fun x => Js.truthy_string x = true) [t; d; p; c; cn; s]
    /\ imgs <> [].

Ltac walk :=
  repeat (cbn -[create_listing slice Js.starts_with Js.truthy_string];
          match goal with
          | |- context [match ?x with _ => _ end] =>
              lazymatch x with
              | context [match _ with _ => _ end] => fail
              | context [create_listing] => fail
              | _ => first [is_var x; destruct x | destruct x eqn:?]
              end
          end).

Ltac truths :=
  repeat match goal with
         | H : (_ || _)%bool = false |- _ =>
             apply orb_false_iff in H; destruct H
         end;
  repeat match goal with
         | H : negb _ = false |- _ => apply negb_false_iff in H
         end.

(** The two ways through the [try]: it stops at one of the checks, having
    written nothing, or it goes on to create the listing. *)
Lemma POST_try_paths req b :
  (untouched b (snd (POST_try token_user fileName publicUrl stringify req b))
   /\ forall r,
        fst (POST_try token_user fileName publicUrl stringify req b) = inr r ->
        code r = 401 \/ code r = 400)
  \/ (exists uid userSchool t d p c cn s imgs b1,
        POST_try token_user fileName publicUrl stringify req b
        = create_listing fileName publicUrl stringify uid userSchool
            t d p c cn s imgs b1
        /\ untouched b b1
        /\ (exists later, (journal b1 = later ++ journal b)%list)
        /\ accepted req b uid userSchool t d p c cn s imgs).
Proof.
  unfold POST_try.
  destruct b as [[us sch st] cats its ims nid bk jr].
  destruct req as [auth [msg|[ft fd fp fc fcn fs [|img imgs]]]];
    cbn [authorization form];
    (destruct auth as [h|];
     [|left; split; [repeat split | intros r [= <-]; left; reflexivity]]);
    (destruct (Js.starts_with "Bearer " h) eqn:Hbearer; cbn [negb];
     [|left; split; [repeat split | intros r [= <-]; left; reflexivity]]);
    remember (slice 7 h) as tok eqn:Htok;
    exec; walk;
    first
      [ left; split;
        [ solve [repeat split]
        | first [ discriminate
                | intros r [= <-]; cbn; first [left; reflexivity
                                              | right; reflexivity] ] ]
      | right; do 10 eexists; split; [reflexivity|];
        split; [repeat split|];
        split; [eexists [_; _]; reflexivity|];
        truths; subst tok; eexists _, _; cbn;
        split; [reflexivity|]; split; [exact Hbearer|];
        split; [eassumption|]; split; [eassumption|];
        split; [reflexivity|]; split; [assumption|];
        split; [reflexivity|];
        split; [repeat constructor; assumption | discriminate] ].
Qed.

Lemma POST_try_journal h frm b :
  Js.starts_with "Bearer " h = true ->
  exists later o,
    (journal (snd (POST_try token_user fileName publicUrl stringify
                     {| authorization := Some h; form := frm |} b))
     = later ++ (OpGetUser (slice 7 h), o) :: journal b)%list
    /\ (token_user (slice 7 h) = None \/ o <> Proceed ->
        later = []
        /\ untouched b
             (snd (POST_try token_user fileName publicUrl stringify
                     {| authorization := Some h; form := frm |} b))).
Proof.
  intros Hbearer. unfold POST_try. cbn [authorization form].
  rewrite Hbearer. cbn [negb].
  destruct b as [[us sch st] cats its ims nid bk jr].
  remember (slice 7 h) as tok eqn:Htok.
  destruct frm as [msg|[ft fd fp fc fcn fs [|img imgs]]];
    exec; walk;
    first
      [ eexists [], _; split;
        [ reflexivity | intros _; split; [reflexivity | solve [repeat split]] ]
      | eexists [_], _; split;
        [ reflexivity
        | intros [Hn | Hn]; [congruence | exfalso; apply Hn; reflexivity] ]
      | match goal with
        | |- context [create_listing _ _ _ ?u ?sc ?t ?d ?p ?c ?cn ?s ?l ?b1] =>
            destruct (create_listing_journal u sc t d p c cn s l b1)
              as [later Hj]
        end;
        eexists (later ++ [_])%list, _; split;
        [ rewrite Hj; cbn; rewrite <- app_assoc; reflexivity
        | intros [Hn | Hn]; [congruence | exfalso; apply Hn; reflexivity] ] ].
Qed.

(** X23.  The route asks who the caller is before anything else.  Without
    an [Authorization] header that starts with "Bearer " it answers 401 and
    sends no request at all.  With one, the first request it sends is
    [getUser] with the header cut after its first seven characters; when the
    token names no user, or that request is not carried out, no further
    request is sent and nothing is written. *)
Theorem authentication_comes_first (req : Request) (b : Backend) :
  match authorization req with
  | Some h =>
      if Js.starts_with "Bearer " h then
        exists later o,
          (journal (snd (POST token_user fileName publicUrl stringify req b))
           = later ++ (OpGetUser (slice 7 h), o) :: journal b)%list
          /\ (token_user (slice 7 h) = None \/ o <> Proceed ->
              later = []
              /\ untouched b
                   (snd (POST token_user fileName publicUrl stringify req b)))
      else
        POST token_user fileName publicUrl stringify req b
        = (json_error "Unauthorized" 401, b)
  | None =>
      POST token_user fileName publicUrl stringify req b
      = (json_error "Unauthorized" 401, b)
  end.
Proof.
  destruct req as [[h|] frm]; cbn [authorization]; [|reflexivity].
  destruct (Js.starts_with "Bearer " h) eqn:Hbearer.
  - rewrite POST_backend. apply POST_try_journal. exact Hbearer.
  - unfold POST, POST_try, bind. cbn [authorization]. rewrite Hbearer.
    reflexivity.
Qed.

(** X24.  An answer with status 400 means that nothing was written: the
    tables of the items, of their images, of the users and of the
    categories, the sequence of ids and the bucket are as before. *)
Theorem bad_request_writes_nothing (req : Request) (b : Backend) :
  code (fst (POST token_user fileName publicUrl stringify req b)) = 400 ->
  untouched b (snd (POST token_user fileName publicUrl stringify req b)).
Proof.
  rewrite POST_backend, POST_answer.
  destruct (POST_try_paths req b)
    as [[Hu _] | (uid & sc & t & d & p & c & cn & s & imgs & b1 & Heq & _)].
  - intros _. exact Hu.
  - rewrite Heq.
    destruct (fst (create_listing fileName publicUrl stringify uid sc
                     t d p c cn s imgs b1)) as [m|r] eqn:E.
    + destruct (String.eqb m "Unauthorized: No valid session"); discriminate.
    + apply create_listing_success in E as (urls & cid & _ & _ & -> & _).
      discriminate.
Qed.


(** X26.  Whatever the request and whatever the backend answers, the route
    removes nothing and rewrites nothing of others: the users and the
    categories are as before, the bucket is the old one with at most one
    object added per image of the form, the image rows are the old ones
    with rows added at the end, and every row of [items] but the one under
    the next id is as before. *)
Theorem POST_effect (req : Request) (b : Backend) :
  effect (match form req with
          | inr f => length (images f)
          | inl _ => 0%nat
          end)
    b (snd (POST token_user fileName publicUrl stringify req b)).
Proof.
  rewrite POST_backend.
  destruct (POST_try_paths req b)
    as [[Hu _] | (uid & sc & t & d & p & c & cn & s & imgs & b1 & Heq
                  & Hu & _ & h & row & _ & _ & _ & _ & _ & _ & Hform & _)].
  - apply untouched_effect. exact Hu.
  - rewrite Heq, Hform. cbn [images].
    eapply effect_after_untouched; [exact Hu|]. apply create_listing_effect.
Qed.

End Route.

(** *** Runs *)

(** An own property of the map, a value that is no property at all, and
    values that name members of [Object.prototype]. *)
Example mapped_values :
  mapped conditionMap "Good" = Text "good"
  /\ mapped conditionMap "Worn" = Text "Worn"
  /\ mapped conditionMap "constructor" = Member "constructor"
  /\ mapped statusMap "__proto__" = Member "__proto__"
  /\ to_text (mapped categoryNameMap "gadgets") = "Gadgets"
  /\ to_text (mapped categoryNameMap "toString")
     = "function toString() { [native code] }"
  /\ to_text (mapped categoryNameMap "constructor")
     = "function Object() { [native code] }".
Proof. repeat split. Qed.

(** The request of [demo_request] without its image. *)
Definition no_image_request : Request :=
  {| authorization := Some "Bearer tok";
     form := inr {| title := Some "Phone"; description := Some "as new";
                    price := Some "10.5"; category := Some "gadgets";
                    condition := Some "Good"; status := Some "Available";
                    images := [] |} |}.

Lemma bad_request_writes_nothing_witness :
  code (fst (POST demo_token_user demo_fileName demo_publicUrl demo_stringify
               no_image_request (demo_backend []))) = 400
  /\ untouched (demo_backend [])
       (snd (POST demo_token_user demo_fileName demo_publicUrl demo_stringify
               no_image_request (demo_backend []))).
Proof.
  split; [vm_compute; reflexivity|].
  apply (bad_request_writes_nothing demo_token_user demo_fileName
           demo_publicUrl demo_stringify no_image_request (demo_backend [])).
  vm_compute. reflexivity.
Defined.


End ListingsMore.
